(** * Speed-test backend (src/index.ts): a shallow embedding

    The Express server of the repository has three measuring endpoints:
    [GET /api/ping], [GET /api/download] and [POST /api/upload].  Each
    handler is embedded below as a Rocq function.  What the handlers take
    from their environment is made an explicit input:

    - [Date.now()] reads a clock oracle ([JS.Clock]);
    - [res.write(buffer)] answers through a transport oracle
      ([canContinue], indexed by the number of the write);
    - the callbacks a handler leaves behind ([process.nextTick], the
      ['drain'] listener, the request's ['data'], ['end'], ['error'] and
      ['close'] listeners) are run by events of a step function. *)

From Stdlib Require Import ZArith QArith Lia List Ascii String.
From stdpp Require Import gmap strings list fin_maps.
Import ListNotations.
Local Open Scope Z_scope.

(** ** JavaScript values used by the handlers *)

Module JS.

(** A number as the handlers meet it: an integer, or [NaN] (what
    [parseInt] answers on a string without a leading integer).  The
    integer is kept exact; above 2^53 JavaScript keeps the nearest double
    instead, which is monotone and so changes no comparison with the
    constants of this program. *)
Inductive number : Type :=
| Num (z : Z)
| NaN.

Definition isNaN (x : number) : bool :=
  match x with NaN => true | Num _ => false end.

(** [Math.min] and [Math.max]: [NaN] as soon as one argument is [NaN]. *)
Definition Math_min (a b : number) : number :=
  match a, b with
  | Num x, Num y => Num (Z.min x y)
  | _, _ => NaN
  end.

Definition Math_max (a b : number) : number :=
  match a, b with
  | Num x, Num y => Num (Z.max x y)
  | _, _ => NaN
  end.

Definition sub (a b : number) : number :=
  match a, b with
  | Num x, Num y => Num (x - y)
  | _, _ => NaN
  end.

(** Comparisons: every comparison with [NaN] is false. *)
Definition ge (a b : number) : bool :=
  match a, b with
  | Num x, Num y => y <=? x
  | _, _ => false
  end.

Definition lt (a b : number) : bool :=
  match a, b with
  | Num x, Num y => x <? y
  | _, _ => false
  end.

Definition le (a b : number) : bool :=
  match a, b with
  | Num x, Num y => x <=? y
  | _, _ => false
  end.

(** A string in a condition ([x ? ... : ...], [!x]): only the empty
    string is falsy. *)
Definition truthy (s : string) : bool :=
  match s with
  | EmptyString => false
  | String _ _ => true
  end.

(** *** [parseInt(s, 10)]

    Leading white space is skipped, one sign is read, then the longest
    run of decimal digits; with no digit the answer is [NaN].  Whatever
    follows the digits is ignored.  Strings are sequences of 8-bit code
    units here (tab, LF, VT, FF, CR, space and NBSP are the white space
    among them). *)
Definition isWhiteSpace (c : ascii) : bool :=
  let n := Z.of_N (N_of_ascii c) in
  ((9 <=? n) && (n <=? 13)) || (n =? 32) || (n =? 160).

Fixpoint trimStart (s : string) : string :=
  match s with
  | EmptyString => EmptyString
  | String c r => if isWhiteSpace c then trimStart r else s
  end.

Definition digitValue (c : ascii) : option Z :=
  let n := Z.of_N (N_of_ascii c) in
  if (48 <=? n) && (n <=? 57) then Some (n - 48) else None.

(** Value of the longest digit prefix; [acc] is [None] until a digit
    has been read. *)
Fixpoint digits (acc : option Z) (s : string) : option Z :=
  match s with
  | EmptyString => acc
  | String c r =>
      match digitValue c with
      | Some d => digits (Some (10 * default 0 acc + d)) r
      | None => acc
      end
  end.

Definition parseInt (s : string) : number :=
  let t := trimStart s in
  let '(sign, body) :=
    match t with
    | String "-"%char r => (-1, r)
    | String "+"%char r => (1, r)
    | _ => (1, t)
    end in
  match digits None body with
  | Some v => Num (sign * v)
  | None => NaN
  end.

(** *** [Date.now()]

    The wall clock is an oracle: the [n]-th call of [Date.now()] in the
    process answers [readings n].  Nothing is assumed of the readings;
    [Date.now()] follows the system time, which can be set back. *)
Record Clock : Type := { readings : nat -> Z; reads : nat }.

Definition Date_now (c : Clock) : Z * Clock :=
  (readings c (reads c), {| readings := readings c; reads := S (reads c) |}).

(** *** Requests and JSON responses

    [query] holds the parameters that are strings, as the handler's cast
    [as string | undefined] takes them to be; [RawQuery] below has the
    arrays and objects the query parser can give as well. *)
Record Request : Type := {
  query : gmap string string;
  headers : gmap string string
}.

(** What [res.json] is given: the endpoint's object, or [{ error }]. *)
Inductive body (B : Type) : Type :=
| Payload (b : B)
| ErrorMsg (error : string).
Arguments Payload {B} b.
Arguments ErrorMsg {B} error.

Record Response (B : Type) : Type := { status : Z; json : body B }.
Arguments status {B} _.
Arguments json {B} _.

(** [res.json(b)] with the default status, and [res.status(c).json({error})]. *)
Definition res_json {B : Type} (b : B) : Response B :=
  {| status := 200; json := Payload b |}.

Definition res_error {B : Type} (code : Z) (msg : string) : Response B :=
  {| status := code; json := ErrorMsg msg |}.

End JS.

(** ** [GET /api/ping] *)

Module Ping.
Import JS.

Record Pong : Type := { timestamp : Z; serverTime : Z }.

(** The handler: one clock reading, returned in both fields. *)
Definition ping (c : Clock) : Response Pong * Clock :=
  let '(serverTime, c) := Date_now c in
  (res_json {| timestamp := serverTime; serverTime := serverTime |}, c).

(** [n] calls one after the other; the responses in the order of the calls. *)
Fixpoint pings (n : nat) (c : Clock) : list (Response Pong) * Clock :=
  match n with
  | O => ([], c)
  | S k =>
      let '(r, c) := ping c in
      let '(rs, c) := pings k c in
      (r :: rs, c)
  end.

(** The [timestamp] field of a response ([None] for an error body,
    which [ping] never sends). *)
Definition timestamp_of (r : Response Pong) : option Z :=
  match json r with
  | Payload p => Some (timestamp p)
  | ErrorMsg _ => None
  end.

Definition serverTime_of (r : Response Pong) : option Z :=
  match json r with
  | Payload p => Some (serverTime p)
  | ErrorMsg _ => None
  end.

(** The [timestamp] fields of a sequence of responses. *)
Definition timestamps (rs : list (Response Pong)) : list Z :=
  omap timestamp_of rs.

(** Every element is at least every earlier one. *)
Definition nondecreasing (l : list Z) : Prop :=
  forall (i j : nat) (x y : Z),
    (i <= j)%nat -> l !! i = Some x -> l !! j = Some y -> x <= y.

End Ping.

(** ** [GET /api/download] *)

Module Download.
Import JS.

Definition minSize : Z := 50 * 1024 * 1024.
Definition maxSize : Z := 200 * 1024 * 1024.
Definition defaultSize : Z := 100 * 1024 * 1024.
Definition chunkSize : Z := 64 * 1024.

(** [sizeParam ? parseInt(sizeParam, 10) : 100 * 1024 * 1024] *)
Definition sizeBytes (sizeParam : option string) : number :=
  match sizeParam with
  | Some s => if truthy s then parseInt s else Num defaultSize
  | None => Num defaultSize
  end.

(** [Math.max(minSize, Math.min(maxSize, sizeBytes))] *)
Definition finalSize (sizeParam : option string) : number :=
  Math_max (Num minSize) (Math_min (Num maxSize) (sizeBytes sizeParam)).

(** The variables the closure [sendChunk] shares with its callbacks, and
    what it has done to the response so far.  A chunk is recorded by its
    length: its bytes come from [Math.random] and decide nothing. *)
Record Session : Type := {
  target : number;        (* finalSize *)
  sent : Z;
  isDraining : bool;
  written : list Z;       (* lengths given to res.write, latest first *)
  ended : nat;            (* calls of res.end *)
  nextTicks : nat;        (* process.nextTick(sendChunk) not yet run *)
  drainOnce : nat         (* res.once('drain', ...) listeners installed *)
}.

Definition init (t : number) : Session :=
  {| target := t; sent := 0; isDraining := false; written := [];
     ended := 0; nextTicks := 0; drainOnce := 0 |}.

Definition res_end (s : Session) : Session :=
  {| target := target s; sent := sent s; isDraining := isDraining s;
     written := written s; ended := S (ended s);
     nextTicks := nextTicks s; drainOnce := drainOnce s |}.

Definition add_sent (n : Z) (s : Session) : Session :=
  {| target := target s; sent := sent s + n; isDraining := isDraining s;
     written := written s; ended := ended s;
     nextTicks := nextTicks s; drainOnce := drainOnce s |}.

Definition res_write (n : Z) (s : Session) : Session :=
  {| target := target s; sent := sent s; isDraining := isDraining s;
     written := n :: written s; ended := ended s;
     nextTicks := nextTicks s; drainOnce := drainOnce s |}.

Definition set_isDraining (b : bool) (s : Session) : Session :=
  {| target := target s; sent := sent s; isDraining := b;
     written := written s; ended := ended s;
     nextTicks := nextTicks s; drainOnce := drainOnce s |}.

Definition set_nextTicks (k : nat) (s : Session) : Session :=
  {| target := target s; sent := sent s; isDraining := isDraining s;
     written := written s; ended := ended s;
     nextTicks := k; drainOnce := drainOnce s |}.

Definition set_drainOnce (k : nat) (s : Session) : Session :=
  {| target := target s; sent := sent s; isDraining := isDraining s;
     written := written s; ended := ended s;
     nextTicks := nextTicks s; drainOnce := k |}.

(** [Buffer.allocUnsafe(size)]: the length of the buffer, or [None] when
    it throws ([NaN] or a negative size). *)
Definition allocUnsafe (size : number) : option Z :=
  match size with
  | Num n => if 0 <=? n then Some n else None
  | NaN => None
  end.

(** Events that run the callbacks [sendChunk] leaves behind. *)
Inductive event : Type :=
| RunTick      (* the event loop runs the next process.nextTick callback *)
| EmitDrain.   (* the response emits 'drain' *)

#[global] Instance event_eq_dec : EqDecision event.
Proof. solve_decision. Defined.

(** The two states of the writer, read off the flag [isDraining]. *)
Inductive phase : Type := Writing | WaitingForDrain.

Definition phase_of (s : Session) : phase :=
  if isDraining s then WaitingForDrain else Writing.

Section Transport.

(** [canContinue k] is what [res.write] returns for the write number
    [k] (from 0) of the response. *)
Variable canContinue : nat -> bool.

(** One call of [sendChunk]; [None] when it throws. *)
Definition sendChunk (s : Session) : option Session :=
  if ge (Num (sent s)) (target s) then Some (res_end s)
  else
    let remaining := sub (target s) (Num (sent s)) in
    let currentChunkSize := Math_min (Num chunkSize) remaining in
    match allocUnsafe currentChunkSize with
    | None => None
    | Some buffer =>
        let s := add_sent buffer s in
        let ok := canContinue (length (written s)) in
        let s := res_write buffer s in
        if negb ok then
          Some (set_drainOnce (S (drainOnce s)) (set_isDraining true s))
        else if lt (Num (sent s)) (target s) then
          Some (set_nextTicks (S (nextTicks s)) s)
        else Some (res_end s)
    end.

(** The ['drain'] listener. *)
Definition onDrain (s : Session) : option Session :=
  sendChunk (set_isDraining false s).

Fixpoint call_listeners (k : nat) (s : Session) : option Session :=
  match k with
  | O => Some s
  | S k' => onDrain s ≫= call_listeners k'
  end.

(** One event.  [RunTick] with an empty queue and [EmitDrain] without
    a listener do nothing.  The listeners of ['drain'] are [once]
    listeners: all of them are removed, then called. *)
Definition step (e : event) (s : Session) : option Session :=
  match e with
  | RunTick =>
      match nextTicks s with
      | O => Some s
      | S k => sendChunk (set_nextTicks k s)
      end
  | EmitDrain => call_listeners (drainOnce s) (set_drainOnce 0 s)
  end.

Fixpoint steps (es : list event) (s : Session) : option Session :=
  match es with
  | [] => Some s
  | e :: es' => step e s ≫= steps es'
  end.

(** The event the loop is waiting for, if any: the queued tick, else
    the transport's drain signal. *)
Definition next_event (s : Session) : option event :=
  match nextTicks s, drainOnce s with
  | S _, _ => Some RunTick
  | O, S _ => Some EmitDrain
  | O, O => None
  end.

(** The loop run to completion: every awaited event arrives. *)
Fixpoint run (fuel : nat) (s : Session) : option Session :=
  match fuel with
  | O => Some s
  | S f =>
      match next_event s with
      | None => Some s
      | Some e => step e s ≫= run f
      end
  end.

(** The body of the handler after the headers: [sendChunk()], inside
    the handler's [try]. *)
Definition start (t : number) : option Session := sendChunk (init t).

Inductive Outcome : Type :=
| Streaming (s : Session)
| Failed (r : Response unit).

(** The handler.  An exception of the first [sendChunk] is caught; no
    header has been sent then, so the answer is the 500 response. *)
Definition download (req : Request) : Outcome :=
  let sizeParam := query req !! "size" in
  match start (finalSize sizeParam) with
  | Some s => Streaming s
  | None => Failed (res_error 500 "Download failed")
  end.

(** Sessions the handler can be in: after [start], and after any
    event. *)
Inductive reachable (t : number) : Session -> Prop :=
| reach_start s : start t = Some s -> reachable t s
| reach_step e s s' : reachable t s -> step e s = Some s' -> reachable t s'.

End Transport.

Definition total (l : list Z) : Z := fold_right Z.add 0 l.

(** *** Invariants of a session with target [t] *)

Definition chunk_ok (n : Z) : Prop := 0 < n <= chunkSize.

(** What holds of the counter and of the writes whenever [sendChunk] is
    entered or left. *)
Definition counted (t : Z) (s : Session) : Prop :=
  target s = Num t
  /\ 0 <= sent s <= t
  /\ total (written s) = sent s
  /\ Forall chunk_ok (written s).

(** On entry of [sendChunk]: its caller has taken the callback that led
    here off its queue, and nothing else is scheduled. *)
Definition entering (t : Z) (s : Session) : Prop :=
  counted t s
  /\ isDraining s = false /\ ended s = 0%nat
  /\ nextTicks s = 0%nat /\ drainOnce s = 0%nat.

(** Between events: one tick queued, or one drain listener installed,
    or the response ended, and never two of these. *)
Definition settled (t : Z) (s : Session) : Prop :=
  counted t s /\ 0 < sent s
  /\ ((nextTicks s = 1%nat /\ drainOnce s = 0%nat /\ ended s = 0%nat
       /\ isDraining s = false /\ sent s < t)
      \/ (nextTicks s = 0%nat /\ drainOnce s = 1%nat /\ ended s = 0%nat
          /\ isDraining s = true)
      \/ (nextTicks s = 0%nat /\ drainOnce s = 0%nat /\ ended s = 1%nat
          /\ isDraining s = false /\ sent s = t)).

(** Chunks needed for [n] bytes. *)
Definition chunks_for (n : Z) : Z := (n + chunkSize - 1) / chunkSize.

(** Steps left, at most, before the response has ended: one per chunk
    still to write, and one more when the last write is rejected. *)
Definition steps_left (t : Z) (s : Session) : nat :=
  match ended s with
  | O => S (Z.to_nat (chunks_for (t - sent s)))
  | S _ => O
  end.

End Download.

(** ** [POST /api/upload] *)

Module Upload.
Import JS.

(** The object of the success response.  [duration] is the exact
    quotient; JavaScript rounds it to the nearest double, which keeps
    its sign. *)
Record Report : Type := {
  received : Z;
  expected : number;
  duration : Q;
  timestamp : Z
}.

(** The variables shared by the four listeners of the request. *)
Record Closure : Type := {
  startTime : Z;
  sizeBytes : number;
  receivedBytes : Z
}.

(** Server-side state of one upload exchange.  [listeners] is [None]
    until the handler installs its ['data'], ['end'], ['error'] and
    ['close'] listeners, which it does together or not at all;
    [response] is [Some] once a response has been sent
    ([res.headersSent]). *)
Record Conn : Type := {
  response : option (Response Report);
  listeners : option Closure;
  console : list string
}.

Definition fresh : Conn :=
  {| response := None; listeners := None; console := [] |}.

Definition respond (r : Response Report) (k : Conn) : Conn :=
  {| response := Some r; listeners := listeners k; console := console k |}.

Definition log (msg : string) (k : Conn) : Conn :=
  {| response := response k; listeners := listeners k;
     console := msg :: console k |}.

Definition install (env : Closure) (k : Conn) : Conn :=
  {| response := response k; listeners := Some env; console := console k |}.

Definition headersSent (k : Conn) : bool :=
  match response k with Some _ => true | None => false end.

(** The handler, up to the installation of the listeners. *)
Definition upload (req : Request) (c : Clock) : Conn * Clock :=
  let '(startTime, c) := Date_now c in
  let contentLength := headers req !! "content-length" in
  match contentLength with
  | Some cl =>
      if negb (truthy cl) then
        (respond (res_error 400 "Content-Length header required") fresh, c)
      else
        let sizeBytes := parseInt cl in
        if isNaN sizeBytes || le sizeBytes (Num 0) then
          (respond (res_error 400 "Invalid Content-Length") fresh, c)
        else
          (install {| startTime := startTime; sizeBytes := sizeBytes;
                      receivedBytes := 0 |} fresh, c)
  | None =>
      (respond (res_error 400 "Content-Length header required") fresh, c)
  end.

(** What the request stream emits.  An ['error'] comes with what the
    environment has done to the response by then: [writable] is false when
    the response is already destroyed, as it is when the stream fails
    because the connection was reset. *)
Inductive event : Type :=
| Data (chunk : list Byte.byte)
| End
| Error (writable : bool)
| Close.

(** ['data']: [receivedBytes += chunk.length]. *)
Definition onData (chunk : list Byte.byte) (env : Closure) : Closure :=
  {| startTime := startTime env; sizeBytes := sizeBytes env;
     receivedBytes := receivedBytes env + Z.of_nat (length chunk) |}.

(** ['end'].  [res.json] throws when a response has already been sent;
    the listener catches and logs that. *)
Definition onEnd (env : Closure) (k : Conn) (c : Clock) : Conn * Clock :=
  let '(endTime, c) := Date_now c in
  let duration := Qmake (endTime - startTime env) 1000 in
  let actualSize := receivedBytes env in
  if headersSent k then (log "Upload processing error:" k, c)
  else
    (respond (res_json {| received := actualSize;
                          expected := sizeBytes env;
                          duration := duration;
                          timestamp := endTime |}) k, c).

(** ['error'].  On a destroyed response [res.status(500).json(...)]
    sends nothing and [res.headersSent] stays false. *)
Definition onError (writable : bool) (k : Conn) : Conn :=
  let k := log "Upload stream error:" k in
  if headersSent k then k
  else if writable then respond (res_error 500 "Upload stream failed") k
  else k.

(** ['close'] *)
Definition onClose (env : Closure) (k : Conn) : Conn :=
  if negb (headersSent k) && (receivedBytes env =? 0)
  then log "Client disconnected during upload" k
  else k.

(** One event of the request: it reaches the handler's listener when
    the listeners are installed, and nothing of the handler otherwise. *)
Definition deliver (e : event) (kc : Conn * Clock) : Conn * Clock :=
  let '(k, c) := kc in
  match listeners k with
  | None => (k, c)
  | Some env =>
      match e with
      | Data chunk => (install (onData chunk env) k, c)
      | End => onEnd env k c
      | Error writable => (onError writable k, c)
      | Close => (onClose env k, c)
      end
  end.

Definition deliver_all (es : list event) (kc : Conn * Clock) : Conn * Clock :=
  fold_left (fun kc e => deliver e kc) es kc.

(** Bytes of the chunks of a body. *)
Definition body_length (chunks : list (list Byte.byte)) : Z :=
  fold_right (fun chunk n => Z.of_nat (length chunk) + n) 0 chunks.

(** A whole upload: the handler, then the chunks, then ['end']. *)
Definition exchange (req : Request) (chunks : list (list Byte.byte))
           (c : Clock) : Conn * Clock :=
  deliver_all (map Data chunks ++ [End]) (upload req c).

End Upload.

(** ** Concrete requests, clocks and transports *)

Module Scenario.
Import JS.

Definition get_download (size : string) : Request :=
  {| query := {[ "size" := size ]}; headers := ∅ |}.

Definition get_download_plain : Request :=
  {| query := ∅; headers := ∅ |}.

Definition post_upload (contentLength : string) : Request :=
  {| query := ∅; headers := {[ "content-length" := contentLength ]} |}.

(** A clock that advances by 7 ms from one reading to the next. *)
Definition steady_clock : Clock :=
  {| readings := fun n => 1700000000000 + 7 * Z.of_nat n; reads := 0 |}.

(** A clock set back by two seconds after its first reading. *)
Definition clock_set_back : Clock :=
  {| readings := fun n => match n with O => 5000 | S _ => 3000 end;
     reads := 0 |}.

(** A transport that accepts every other write. *)
Definition every_other : nat -> bool := Nat.even.

Definition three_bytes : list (list Byte.byte) :=
  [[Byte.x00; Byte.x01]; [Byte.x02]].

(** The session of [GET /api/download?size=10] on [every_other] when the
    handler returns: one chunk written and accepted, one tick queued. *)
Definition first_chunk_accepted : Download.Session :=
  {| Download.target := Num (50 * 1024 * 1024);
     Download.sent := 64 * 1024;
     Download.isDraining := false;
     Download.written := [64 * 1024];
     Download.ended := 0;
     Download.nextTicks := 1;
     Download.drainOnce := 0 |}.

End Scenario.

(** ** Query values as Express hands them over *)

Module RawQuery.
Import JS.

(** [req.query.size] is typed [string | undefined] by a cast only: the
    query parser also gives arrays ([?size[]=1], a repeated [size]) and
    objects ([?size[a]=1]). *)
#[warnings="-register-all"]
Inductive value : Type :=
| Text (s : string)
| Array (items : list value)
| Object (fields : list (string * value)).

(** A value in a condition: a string as [truthy] has it, any array or
    object is truthy. *)
Definition truthy_value (v : value) : bool :=
  match v with
  | Text s => truthy s
  | Array _ | Object _ => true
  end.

(** The string [parseInt] reads: the string itself, the items of an
    array joined by commas, ["[object Object]"] for an object. *)
Fixpoint toText (v : value) : string :=
  match v with
  | Text s => s
  | Array items =>
      (fix join (l : list value) : string :=
         match l with
         | [] => EmptyString
         | x :: r =>
             match r with
             | [] => toText x
             | _ :: _ => (toText x ++ "," ++ join r)%string
             end
         end) items
  | Object _ => "[object Object]"
  end.

(** [sizeParam ? parseInt(sizeParam, 10) : 100 * 1024 * 1024] *)
Definition sizeBytes (sizeParam : option value) : number :=
  match sizeParam with
  | Some v =>
      if truthy_value v then parseInt (toText v) else Num Download.defaultSize
  | None => Num Download.defaultSize
  end.

Definition finalSize (sizeParam : option value) : number :=
  Math_max (Num Download.minSize)
           (Math_min (Num Download.maxSize) (sizeBytes sizeParam)).

(** The download handler on any query. *)
Definition download (canContinue : nat -> bool)
           (query : gmap string value) : Download.Outcome :=
  let sizeParam := query !! "size" in
  match Download.start canContinue (finalSize sizeParam) with
  | Some s => Download.Streaming s
  | None => Download.Failed (res_error 500 "Download failed")
  end.

End RawQuery.

(** ** Response headers *)

Module Headers.
Import JS.

(** [res.setHeader(name, value)]: a later call with the same name
    replaces the value.  Names are kept as the source writes them, which
    is the same spelling at every call. *)
Definition setHeader (name value : string)
           (h : gmap string string) : gmap string string :=
  <[name := value]> h.

(** The middleware [noCache], as far as the response goes (it then calls
    [next()]). *)
Definition noCache (h : gmap string string) : gmap string string :=
  setHeader "Expires" "0"
    (setHeader "Pragma" "no-cache"
       (setHeader "Cache-Control"
          "no-store, no-cache, must-revalidate, private" h)).

(** The decimal digit [d] (0 to 9) as a character. *)
Definition digitChar (d : Z) : ascii := ascii_of_N (Z.to_N (48 + d)).

(** Decimal digits of [n >= 0], most significant first. *)
Fixpoint decimal (fuel : nat) (n : Z) : string :=
  match fuel with
  | O => EmptyString
  | S f =>
      if n <? 10 then String (digitChar n) EmptyString
      else decimal f (n / 10) ++ String (digitChar (n mod 10)) EmptyString
  end.

(** [x.toString()] for the numbers of this program: ["NaN"], or the
    decimal digits of an integer (below 10^21 in absolute value, where
    JavaScript does not switch to the exponent form), after a minus sign
    when it is negative. *)
Definition toString (x : number) : string :=
  match x with
  | NaN => "NaN"
  | Num z =>
      if z <? 0 then String "-"%char (decimal (S (Z.to_nat (Z.log2 (- z)))) (- z))
      else decimal (S (Z.to_nat (Z.log2 z))) z
  end.

(** A string of white space only, as [parseInt] skips it. *)
Fixpoint blank (s : string) : bool :=
  match s with
  | EmptyString => true
  | String c r => isWhiteSpace c && blank r
  end.

(** A string that does not go on with a decimal digit. *)
Definition no_leading_digit (s : string) : Prop :=
  match s with
  | EmptyString => True
  | String c _ => digitValue c = None
  end.

(** A string between double quotes. *)
Definition quoted (s : string) : string :=
  String (ascii_of_N 34) (s ++ String (ascii_of_N 34) EmptyString).

(** The [setHeader] calls of the download handler, in their order. *)
Definition download_headers (finalSize : number)
           (h : gmap string string) : gmap string string :=
  setHeader "Expires" "0"
    (setHeader "Pragma" "no-cache"
       (setHeader "Cache-Control" "no-store, no-cache, must-revalidate"
          (setHeader "Transfer-Encoding" "chunked"
             (setHeader "Content-Disposition"
                ("attachment; filename=" ++ quoted "speedtest.dat")
                (setHeader "Content-Length" (toString finalSize)
                   (setHeader "Content-Type" "application/octet-stream"
                      h)))))).

(** Headers of the response when the download handler starts to send:
    [app.use(noCache)], the [noCache] of the route, then the handler, on
    the headers [h] the earlier middleware left. *)
Definition download_response_headers (req : Request)
           (h : gmap string string) : gmap string string :=
  download_headers (Download.finalSize (query req !! "size"))
                   (noCache (noCache h)).

End Headers.

(** ** Traces of request events *)

Module Trace.
Import JS.

(** Bytes carried by the ['data'] events of a trace. *)
Fixpoint data_bytes (es : list Upload.event) : Z :=
  match es with
  | [] => 0
  | Upload.Data chunk :: es' => Z.of_nat (length chunk) + data_bytes es'
  | _ :: es' => data_bytes es'
  end.

(** ['end'] and ['error'] are the events on which the handler answers. *)
Definition answering (e : Upload.event) : bool :=
  match e with
  | Upload.End | Upload.Error _ => true
  | Upload.Data _ | Upload.Close => false
  end.

Definition quiet (es : list Upload.event) : Prop :=
  Forall (fun e => answering e = false) es.

(** The events on which a response can really go out: ['end'], and
    ['error'] while the response is writable. *)
Definition sends (e : Upload.event) : bool :=
  match e with
  | Upload.End | Upload.Error true => true
  | Upload.Error false | Upload.Data _ | Upload.Close => false
  end.

Definition silent (es : list Upload.event) : Prop :=
  Forall (fun e => sends e = false) es.



End Trace.

(** ** More concrete sessions *)

Module Cases.
Import JS.

(** The session of a 50 MiB download when the handler returns, on a
    transport that rejects every write. *)
Definition first_chunk_rejected : Download.Session :=
  {| Download.target := Num (50 * 1024 * 1024);
     Download.sent := 64 * 1024;
     Download.isDraining := true;
     Download.written := [64 * 1024];
     Download.ended := 0;
     Download.nextTicks := 0;
     Download.drainOnce := 1 |}.

(** The same on a transport that accepts every write. *)
Definition first_chunk_always_accepted : Download.Session :=
  {| Download.target := Num (50 * 1024 * 1024);
     Download.sent := 64 * 1024;
     Download.isDraining := false;
     Download.written := [64 * 1024];
     Download.ended := 0;
     Download.nextTicks := 1;
     Download.drainOnce := 0 |}.

(** A request stream that emits an error after three bytes, with the
    response still writable. *)
Definition broken_upload : list Upload.event :=
  [Upload.Data [Byte.x00; Byte.x01]; Upload.Data [Byte.x02];
   Upload.Error true].

(** A connection reset before any byte: the response is destroyed, the
    request emits ['error'] and then ['close']. *)
Definition reset_upload : list Upload.event :=
  [Upload.Error false; Upload.Close].

(** [?size[]=]: the size parameter is an array holding the empty string. *)
Definition size_is_empty_array : gmap string RawQuery.value :=
  {[ "size" := RawQuery.Array [RawQuery.Text ""] ]}.

(** A client that goes away after two bytes. *)
Definition aborted_upload : list Upload.event :=
  [Upload.Data [Byte.x00; Byte.x01]; Upload.Close].

End Cases.

(** ** Properties of the embedding *)

Import JS.

(** *** [parseInt] and the clamp *)

Lemma parseInt_empty : parseInt "" = NaN.
Proof. reflexivity. Qed.

Lemma parseInt_Num_truthy (s : string) (z : Z) :
  parseInt s = Num z -> truthy s = true.
Proof. destruct s; [discriminate | reflexivity]. Qed.

Lemma finalSize_clamp (sizeParam : option string) (s : Z) :
  Download.sizeBytes sizeParam = Num s ->
  Download.finalSize sizeParam =
    Num (Z.max Download.minSize (Z.min Download.maxSize s)).
Proof. unfold Download.finalSize. intros ->. reflexivity. Qed.

Lemma finalSize_range (sizeParam : option string) (t : Z) :
  Download.finalSize sizeParam = Num t ->
  Download.minSize <= t <= Download.maxSize.
Proof.
  unfold Download.finalSize.
  destruct (Download.sizeBytes sizeParam) as [s|]; simpl; [|discriminate].
  intros [= <-]. unfold Download.minSize, Download.maxSize. lia.
Qed.

Lemma finalSize_NaN (sizeParam : option string) :
  Download.sizeBytes sizeParam = NaN -> Download.finalSize sizeParam = NaN.
Proof. unfold Download.finalSize. intros ->. reflexivity. Qed.

(** JavaScript keeps an integer above 2^53 as the nearest double.  Any
    such rounding (monotone, exact up to 2^53) leaves the clamp as it is,
    so keeping the exact integer in [JS.number] loses nothing here. *)
Section Rounding.

Variable round : Z -> Z.
Hypothesis round_monotone : forall a b : Z, a <= b -> round a <= round b.
Hypothesis round_exact : forall a : Z, - 2 ^ 53 <= a <= 2 ^ 53 -> round a = a.

Lemma clamp_of_rounded (s : Z) :
  Z.max Download.minSize (Z.min Download.maxSize (round s)) =
    Z.max Download.minSize (Z.min Download.maxSize s).
Proof.
  unfold Download.minSize, Download.maxSize.
  destruct (Z_le_gt_dec s (2 ^ 53)) as [Hhi|Hhi].
  - destruct (Z_le_gt_dec (- 2 ^ 53) s) as [Hlo|Hlo].
    + rewrite round_exact by lia. reflexivity.
    + assert (round s <= - 2 ^ 53).
      { rewrite <- (round_exact (- 2 ^ 53)) by lia.
        apply round_monotone. lia. }
      lia.
  - assert (2 ^ 53 <= round s).
    { rewrite <- (round_exact (2 ^ 53)) at 1 by lia.
      apply round_monotone. lia. }
    lia.
Qed.

End Rounding.

(** *** The ping handler *)

Lemma pings_timestamps (n : nat) (c : Clock) :
  Ping.timestamps (fst (Ping.pings n c)) =
    map (fun i => readings c (reads c + i)%nat) (seq 0 n)
  /\ readings (snd (Ping.pings n c)) = readings c
  /\ reads (snd (Ping.pings n c)) = (reads c + n)%nat.
Proof.
  revert c. induction n as [|n IH]; intros c.
  - simpl. repeat split; lia.
  - cbn [Ping.pings]. unfold Ping.ping, Date_now.
    set (c1 := {| readings := readings c; reads := S (reads c) |}).
    specialize (IH c1). destruct (Ping.pings n c1) as [rs c2].
    cbn [fst snd] in *. destruct IH as (Hts & Hr & Hn).
    repeat split.
    + unfold Ping.timestamps in *. cbn. rewrite Hts. f_equal.
      * f_equal. lia.
      * rewrite <- seq_shift, map_map. apply map_ext.
        intros i. subst c1. cbn. f_equal. lia.
    + rewrite Hr. reflexivity.
    + rewrite Hn. subst c1. cbn. lia.
Qed.

(** C10: a ping response carries one clock reading, taken once, in both
    its [timestamp] and its [serverTime] field, so the two are equal. *)
Theorem ping_timestamp_is_serverTime (c : Clock) :
  let now := readings c (reads c) in
  Ping.timestamp_of (fst (Ping.ping c)) = Some now
  /\ Ping.serverTime_of (fst (Ping.ping c)) = Some now
  /\ Ping.timestamp_of (fst (Ping.ping c)) = Ping.serverTime_of (fst (Ping.ping c))
  /\ status (fst (Ping.ping c)) = 200
  /\ reads (snd (Ping.ping c)) = S (reads c).
Proof. cbn. repeat split. Qed.

(** C7 (as amended): the timestamps of sequential pings are the
    successive readings of the server clock, one per call and in the order
    of the calls; they are non-decreasing whenever those readings are. *)
Theorem ping_timestamps_follow_clock (n : nat) (c : Clock) :
  (forall i j : nat,
      (reads c <= i)%nat -> (i <= j)%nat -> (j < reads c + n)%nat ->
      readings c i <= readings c j) ->
  Ping.timestamps (fst (Ping.pings n c)) =
    map (fun i => readings c (reads c + i)%nat) (seq 0 n)
  /\ Ping.nondecreasing (Ping.timestamps (fst (Ping.pings n c))).
Proof.
  intros Hmono. destruct (pings_timestamps n c) as (Hts & _ & _).
  split; [exact Hts|]. rewrite Hts. intros i j x y Hij Hi Hj.
  rewrite list_lookup_fmap in Hi, Hj.
  destruct (seq 0 n !! i) as [a|] eqn:Ea; [|discriminate].
  destruct (seq 0 n !! j) as [b|] eqn:Eb; [|discriminate].
  apply lookup_seq in Ea as [-> Hlt_i]. apply lookup_seq in Eb as [-> Hlt_j].
  cbn in Hi, Hj. injection Hi as <-. injection Hj as <-.
  apply Hmono; lia.
Qed.

Lemma ping_timestamps_follow_clock_witness :
  Ping.nondecreasing (Ping.timestamps (fst (Ping.pings 3 Scenario.steady_clock))).
Proof.
  apply (ping_timestamps_follow_clock 3 Scenario.steady_clock).
  intros i j _ Hij _. unfold Scenario.steady_clock, readings. lia.
Defined.

(** C7 as stated fails: with a server clock set back between two calls,
    the second ping answers an earlier timestamp than the first. *)
Lemma ping_timestamps_can_decrease :
  Ping.timestamps (fst (Ping.pings 2 Scenario.clock_set_back)) = [5000; 3000]
  /\ ~ Ping.nondecreasing (Ping.timestamps (fst (Ping.pings 2 Scenario.clock_set_back))).
Proof.
  split; [reflexivity|].
  intros H.
  assert (5000 <= 3000) by (apply (H 0%nat 1%nat); [lia | reflexivity ..]).
  lia.
Qed.

(** *** The chunk loop of the download *)

(** Closes a goal [exists s', Some _ = Some s' /\ ...] once the branch of
    [sendChunk] is known. *)
Ltac leave_sendChunk :=
  eexists; split; [reflexivity|]; cbn;
  repeat split; cbn; auto; try lia;
  try first [ left; repeat split; lia
            | right; left; repeat split; lia
            | right; right; repeat split; lia ].

(** An event that finds no callback leaves the session as it is. *)
Ltac idle_event Hset :=
  eexists; split; [reflexivity|]; split; [exact Hset|];
  split; [intros [=] | intros _; reflexivity].

Section ChunkLoop.
Import Download.

Variable canContinue : nat -> bool.
Variable t : Z.
Hypothesis t_positive : 0 < t.

Lemma chunkSize_value : chunkSize = 65536.
Proof. reflexivity. Qed.

(** One call of [sendChunk] from a clean entry state. *)
Lemma sendChunk_entering (s : Session) :
  entering t s ->
  exists s',
    sendChunk canContinue s = Some s'
    /\ settled t s'
    /\ sent s' = sent s + Z.min chunkSize (t - sent s)
    /\ (sent s < t ->
        written s' = Z.min chunkSize (t - sent s) :: written s
        /\ isDraining s' = negb (canContinue (length (written s))))
    /\ (sent s = t -> written s' = written s /\ ended s' = 1%nat).
Proof.
  intros ((Ht & Hs & Hw & Hall) & Hd & He & Hn & Hl).
  pose proof chunkSize_value as Hc.
  destruct s as [tg n0 dr wr en nt dl]; cbn in *; subst tg dr en nt dl.
  unfold sendChunk; cbn.
  destruct (Z.leb_spec t n0) as [Hge|Hlt].
  - assert (n0 = t) by lia. subst n0. leave_sendChunk.
  - unfold allocUnsafe.
    destruct (Z.leb_spec 0 (Z.min chunkSize (t - n0))) as [_|Hneg]; [|lia].
    assert (Hchunk : chunk_ok (Z.min chunkSize (t - n0)))
      by (unfold chunk_ok; lia).
    destruct (canContinue (length wr)) eqn:Hok; cbn.
    + destruct (Z.ltb_spec (n0 + Z.min chunkSize (t - n0)) t);
        leave_sendChunk.
    + leave_sendChunk.
Qed.

Lemma entering_init : entering t (init (Num t)).
Proof.
  unfold entering, counted, init; cbn.
  repeat split; auto; lia.
Qed.

Lemma start_settled :
  exists s0,
    start canContinue (Num t) = Some s0
    /\ settled t s0
    /\ sent s0 = Z.min chunkSize t
    /\ written s0 = [Z.min chunkSize t].
Proof.
  destruct (sendChunk_entering _ entering_init) as (s0 & Hs0 & Hset & Hsent & Hw & _).
  exists s0. cbn in Hsent, Hw. rewrite Z.sub_0_r in *.
  destruct (Hw t_positive) as [Hw' _].
  split; [exact Hs0|]. split; [exact Hset|]. split; [lia | exact Hw'].
Qed.

(** What one event does to a settled session.  The awaited event runs
    [sendChunk] once; any other event finds no callback to run. *)
Lemma step_settled (e : event) (s : Session) :
  settled t s ->
  exists s',
    step canContinue e s = Some s'
    /\ settled t s'
    /\ (next_event s = Some e ->
        sent s' = sent s + Z.min chunkSize (t - sent s)
        /\ (sent s < t ->
            written s' = Z.min chunkSize (t - sent s) :: written s
            /\ isDraining s' = negb (canContinue (length (written s))))
        /\ (sent s = t -> written s' = written s /\ ended s' = 1%nat))
    /\ (next_event s <> Some e -> s' = s).
Proof.
  intros Hset. pose proof Hset as (Hcnt & Hpos & Hctl).
  destruct s as [tg n0 dr wr en nt dl]; cbn in *.
  destruct Hctl as [(-> & -> & -> & -> & Hlt)
                   |[(-> & -> & -> & ->)|(-> & -> & -> & -> & Heq)]];
    destruct e; cbn.
  - (* a tick is queued and runs *)
    edestruct (sendChunk_entering
                 {| target := tg; sent := n0; isDraining := false;
                    written := wr; ended := 0; nextTicks := 0;
                    drainOnce := 0 |}) as (s' & Hs' & Hset' & Hrest).
    { split; [exact Hcnt | cbn; auto]. }
    exists s'. unfold set_nextTicks; cbn.
    split; [exact Hs'|]. split; [exact Hset'|].
    split; [intros _; exact Hrest | intros Hne; congruence].
  - (* 'drain' without a listener *) idle_event Hset.
  - (* a tick event with an empty queue *) idle_event Hset.
  - (* the awaited 'drain' *)
    edestruct (sendChunk_entering
                 {| target := tg; sent := n0; isDraining := false;
                    written := wr; ended := 0; nextTicks := 0;
                    drainOnce := 0 |}) as (s' & Hs' & Hset' & Hrest).
    { split; [exact Hcnt | cbn; auto]. }
    exists s'. unfold onDrain, set_isDraining, set_drainOnce; cbn.
    rewrite Hs'. cbn.
    split; [reflexivity|]. split; [exact Hset'|].
    split; [intros _; exact Hrest | intros Hne; congruence].
  - (* ended: nothing is left to run *) idle_event Hset.
  - idle_event Hset.
Qed.

Lemma reachable_settled (s : Session) :
  reachable canContinue (Num t) s -> settled t s.
Proof.
  induction 1 as [s Hstart | e s s' _ IH Hstep].
  - destruct start_settled as (s0 & Hs0 & Hset & _). congruence.
  - destruct (step_settled e s IH) as (s'' & Hs'' & Hset & _). congruence.
Qed.

Lemma chunks_for_step (r : Z) :
  0 < r ->
  0 <= chunks_for (r - Z.min chunkSize r)
  /\ chunks_for (r - Z.min chunkSize r) = chunks_for r - 1.
Proof.
  intros Hr. unfold chunks_for. rewrite chunkSize_value.
  destruct (Z.min_spec 65536 r) as [[Hlt ->]|[Hge ->]];
    Z.div_mod_to_equations; lia.
Qed.

Lemma steps_left_decreases (e : event) (s s' : Session) :
  settled t s ->
  next_event s = Some e ->
  step canContinue e s = Some s' ->
  (steps_left t s' < steps_left t s)%nat.
Proof.
  intros Hset Hnext Hstep.
  destruct (step_settled e s Hset) as (s'' & Hs'' & Hset' & Hrun & _).
  assert (s'' = s') by congruence. subst s''.
  destruct (Hrun Hnext) as (Hsent & _ & Hend).
  destruct Hset as ((_ & Hrange & _) & _ & Hctl).
  assert (He : ended s = 0%nat).
  { destruct Hctl as [H|[H|H]]; [tauto | tauto |].
    destruct H as (Hn & Hd & _). unfold next_event in Hnext.
    rewrite Hn, Hd in Hnext. discriminate. }
  unfold steps_left. rewrite He.
  destruct (ended s') eqn:He'; [|lia].
  assert (Hlt : sent s < t).
  { destruct (Z.eq_dec (sent s) t) as [Heq|]; [|lia].
    destruct (Hend Heq) as [_ H1]. congruence. }
  destruct (chunks_for_step (t - sent s)) as [Hnn Hone]; [lia|].
  replace (t - sent s') with (t - sent s - Z.min chunkSize (t - sent s))
    by lia.
  lia.
Qed.

Lemma settled_ended (s : Session) :
  settled t s -> ended s = 1%nat ->
  next_event s = None /\ sent s = t /\ total (written s) = t
  /\ isDraining s = false.
Proof.
  intros ((_ & _ & Hw & _) & _ & Hctl) He.
  destruct Hctl as [H|[H|H]]; [lia | lia |].
  destruct H as (Hn & Hd & _ & Hdr & Hs).
  unfold next_event. rewrite Hn, Hd. repeat split; congruence.
Qed.

(** The loop run to completion ends the response. *)
Lemma run_completes (fuel : nat) (s : Session) :
  settled t s ->
  (steps_left t s <= fuel)%nat ->
  exists s',
    run canContinue fuel s = Some s' /\ settled t s' /\ ended s' = 1%nat.
Proof.
  revert s. induction fuel as [|fuel IH]; intros s Hset Hfuel.
  - exists s. cbn. split; [reflexivity|]. split; [exact Hset|].
    unfold steps_left in Hfuel.
    destruct Hset as (_ & _ & [H|[H|H]]);
      destruct H as (_ & _ & H & _); rewrite H in Hfuel |- *; lia.
  - cbn. destruct (next_event s) as [e|] eqn:Hnext.
    + destruct (step_settled e s Hset) as (s1 & Hs1 & Hset1 & _).
      pose proof (steps_left_decreases e s s1 Hset Hnext Hs1) as Hdec.
      rewrite Hs1. cbn. apply IH; [exact Hset1 | lia].
    + exists s. split; [reflexivity|]. split; [exact Hset|].
      destruct Hset as (_ & _ & [H|[H|H]]); unfold next_event in Hnext;
        destruct H as (Hn & Hd & He & _);
        rewrite Hn in Hnext; try rewrite Hd in Hnext;
        try discriminate; exact He.
Qed.

Lemma steps_left_start (s0 : Session) :
  start canContinue (Num t) = Some s0 ->
  (steps_left t s0 <= Z.to_nat (chunks_for t))%nat.
Proof.
  intros Hs0. destruct start_settled as (s & Hs & _ & Hsent & _).
  assert (s = s0) by congruence. subst s.
  unfold steps_left. destruct (ended s0); [|lia].
  destruct (chunks_for_step t t_positive) as [Hnn Hone].
  rewrite Hsent. lia.
Qed.

End ChunkLoop.

Lemma run_more (canContinue : nat -> bool) (fuel k : nat)
      (s s' : Download.Session) :
  Download.run canContinue fuel s = Some s' ->
  Download.next_event s' = None ->
  Download.run canContinue (fuel + k) s = Some s'.
Proof.
  revert s. induction fuel as [|fuel IH]; intros s Hrun Hquiet.
  - cbn in Hrun. injection Hrun as ->.
    destruct k; cbn; [reflexivity | rewrite Hquiet; reflexivity].
  - cbn in Hrun |- *. destruct (Download.next_event s); [|exact Hrun].
    destruct (Download.step canContinue e s) as [s1|]; cbn in *;
      [apply IH; assumption | discriminate].
Qed.

Lemma minSize_positive (t : Z) :
  Download.minSize <= t <= Download.maxSize -> 0 < t.
Proof. unfold Download.minSize. lia. Qed.

(** C1: for a target [t] between 50 MiB and 200 MiB the chunk loop, run
    to completion, writes [t] bytes in chunks of at most 64 KiB and ends
    the response once.  Whatever the events, the bytes written never exceed
    [t], the response is ended only with [t] bytes written, and with [t]
    bytes written it is ended, at once or, when the last write was
    rejected, by the drain event the writer then waits for. *)
Theorem download_writes_exactly_target
        (canContinue : nat -> bool) (t : Z) :
  Download.minSize <= t <= Download.maxSize ->
  exists s0 final : Download.Session,
    Download.start canContinue (Num t) = Some s0
    /\ (forall fuel : nat,
          (Z.to_nat (Download.chunks_for t) <= fuel)%nat ->
          Download.run canContinue fuel s0 = Some final)
    /\ Download.next_event final = None
    /\ Download.ended final = 1%nat
    /\ Download.total (Download.written final) = t
    /\ Forall (fun n => 0 < n <= 64 * 1024) (Download.written final)
    /\ (forall s : Download.Session,
          Download.reachable canContinue (Num t) s ->
          Download.total (Download.written s) <= t
          /\ Forall (fun n => 0 < n <= 64 * 1024) (Download.written s)
          /\ (Download.ended s <= 1)%nat
          /\ (Download.ended s = 1%nat ->
              Download.total (Download.written s) = t)
          /\ (Download.total (Download.written s) = t ->
              Download.ended s = 1%nat
              \/ (Download.ended s = 0%nat
                  /\ Download.isDraining s = true
                  /\ exists s',
                      Download.step canContinue Download.EmitDrain s = Some s'
                      /\ Download.written s' = Download.written s
                      /\ Download.ended s' = 1%nat))).
Proof.
  intros Hrange. pose proof (minSize_positive t Hrange) as Hpos.
  destruct (start_settled canContinue t Hpos) as (s0 & Hs0 & Hset0 & _).
  destruct (run_completes canContinue t Hpos
              (Z.to_nat (Download.chunks_for t)) s0 Hset0
              (steps_left_start canContinue t Hpos s0 Hs0))
    as (final & Hrun & Hsetf & Hend).
  destruct (settled_ended t final Hsetf Hend) as (Hquiet & Hsent & Htot & _).
  exists s0, final. split; [exact Hs0|]. split.
  { intros fuel Hfuel.
    replace fuel with (Z.to_nat (Download.chunks_for t)
                       + (fuel - Z.to_nat (Download.chunks_for t)))%nat by lia.
    apply run_more; assumption. }
  split; [exact Hquiet|]. split; [exact Hend|]. split; [exact Htot|].
  split; [apply Hsetf|].
  intros s Hreach.
  pose proof (reachable_settled canContinue t Hpos s Hreach) as Hset.
  pose proof Hset as ((_ & Hr & Hw & Hall) & _ & Hctl).
  split; [lia|]. split; [exact Hall|].
  split; [destruct Hctl as [H|[H|H]]; lia|].
  split; [intros He; apply (settled_ended t s Hset He)|].
  intros Hfull. destruct Hctl as [H|[H|H]]; [lia | right | left; tauto].
  destruct H as (Hn & Hd & He & Hdr).
  split; [exact He|]. split; [exact Hdr|].
  destruct (step_settled canContinue t Hpos Download.EmitDrain s Hset)
    as (s' & Hs' & _ & Hrun' & _).
  exists s'. split; [exact Hs'|]. apply Hrun'; [|lia].
  unfold Download.next_event. rewrite Hn, Hd. reflexivity.
Qed.

Lemma download_writes_exactly_target_witness :
  exists s0 final : Download.Session,
    Download.start Scenario.every_other (Num (60 * 1024 * 1024)) = Some s0
    /\ Download.run Scenario.every_other 960 s0 = Some final
    /\ Download.ended final = 1%nat
    /\ Download.total (Download.written final) = 60 * 1024 * 1024.
Proof.
  destruct (download_writes_exactly_target
              Scenario.every_other (60 * 1024 * 1024))
    as (s0 & final & Hs0 & Hrun & _ & Hend & Htot & _).
  - unfold Download.minSize, Download.maxSize. lia.
  - exists s0, final. repeat split; auto; apply Hrun; vm_compute; lia.
Defined.

(** *** The handler of the download *)

Lemma start_NaN (canContinue : nat -> bool) :
  Download.start canContinue NaN = None.
Proof. reflexivity. Qed.

Lemma download_streaming (canContinue : nat -> bool) (req : Request)
      (s0 : Download.Session) :
  Download.download canContinue req = Download.Streaming s0 ->
  exists t : Z,
    Download.finalSize (query req !! "size") = Num t
    /\ Download.start canContinue (Num t) = Some s0.
Proof.
  unfold Download.download.
  destruct (Download.finalSize (query req !! "size")) as [t|].
  - destruct (Download.start canContinue (Num t)) as [s|] eqn:Hs;
      [|discriminate].
    intros [= <-]. exists t. split; [reflexivity | exact Hs].
  - rewrite start_NaN. discriminate.
Qed.

Lemma download_of_size (canContinue : nat -> bool) (req : Request) (t : Z) :
  Download.finalSize (query req !! "size") = Num t ->
  exists s0 : Download.Session,
    Download.download canContinue req = Download.Streaming s0
    /\ Download.target s0 = Num t.
Proof.
  intros Hfs. pose proof (finalSize_range _ _ Hfs) as Hrange.
  pose proof (minSize_positive t Hrange) as Hpos.
  destruct (start_settled canContinue t Hpos) as (s0 & Hs0 & Hset & _).
  exists s0. unfold Download.download. rewrite Hfs, Hs0.
  split; [reflexivity | apply Hset].
Qed.

(** C2: a size parameter that parses to the integer [s] gives the
    transfer the target max(50 MiB, min(200 MiB, s)): 50 MiB below the
    range, 200 MiB above it, [s] inside it; a request without size
    parameter gets 100 MiB. *)
Theorem download_target_is_clamped (canContinue : nat -> bool) :
  (forall (req : Request) (str : string) (s : Z),
      query req !! "size" = Some str ->
      parseInt str = Num s ->
      exists s0 : Download.Session,
        Download.download canContinue req = Download.Streaming s0
        /\ Download.target s0 =
             Num (Z.max (50 * 1024 * 1024) (Z.min (200 * 1024 * 1024) s))
        /\ (s < 50 * 1024 * 1024 ->
            Download.target s0 = Num (50 * 1024 * 1024))
        /\ (200 * 1024 * 1024 < s ->
            Download.target s0 = Num (200 * 1024 * 1024))
        /\ (50 * 1024 * 1024 <= s <= 200 * 1024 * 1024 ->
            Download.target s0 = Num s))
  /\ (forall req : Request,
        query req !! "size" = None ->
        exists s0 : Download.Session,
          Download.download canContinue req = Download.Streaming s0
          /\ Download.target s0 = Num (100 * 1024 * 1024)).
Proof.
  split.
  - intros req str s Hq Hp.
    assert (Hfs : Download.finalSize (query req !! "size") =
                  Num (Z.max Download.minSize (Z.min Download.maxSize s))).
    { apply finalSize_clamp. rewrite Hq. cbn.
      rewrite (parseInt_Num_truthy str s Hp). exact Hp. }
    destruct (download_of_size canContinue req _ Hfs) as (s0 & Hd & Ht).
    exists s0. split; [exact Hd|].
    change (50 * 1024 * 1024) with Download.minSize.
    change (200 * 1024 * 1024) with Download.maxSize.
    split; [exact Ht|]. rewrite Ht.
    unfold Download.minSize, Download.maxSize.
    repeat split; intros; f_equal; lia.
  - intros req Hq.
    assert (Hfs : Download.finalSize (query req !! "size") =
                  Num (100 * 1024 * 1024)) by (rewrite Hq; reflexivity).
    exact (download_of_size canContinue req _ Hfs).
Qed.

Lemma download_target_is_clamped_witness :
  (exists s0 : Download.Session,
      Download.download Scenario.every_other (Scenario.get_download "10")
        = Download.Streaming s0
      /\ Download.target s0 = Num (50 * 1024 * 1024))
  /\ (exists s0 : Download.Session,
        Download.download Scenario.every_other Scenario.get_download_plain
          = Download.Streaming s0
        /\ Download.target s0 = Num (100 * 1024 * 1024)).
Proof.
  split.
  - destruct (proj1 (download_target_is_clamped Scenario.every_other)
                (Scenario.get_download "10") "10" 10)
      as (s0 & Hd & _ & Hlow & _).
    + reflexivity.
    + reflexivity.
    + exists s0. split; [exact Hd | apply Hlow; lia].
  - apply (proj2 (download_target_is_clamped Scenario.every_other)).
    reflexivity.
Defined.

(** C9 (as amended): a size parameter that is not empty and on which
    [parseInt] answers [NaN] makes the final size [NaN]; the handler then
    streams nothing and answers 500. *)
Theorem download_unparsable_size_is_NaN
        (canContinue : nat -> bool) (req : Request) (str : string) :
  query req !! "size" = Some str ->
  str <> EmptyString ->
  parseInt str = NaN ->
  Download.finalSize (query req !! "size") = NaN
  /\ Download.download canContinue req =
       Download.Failed (res_error 500 "Download failed").
Proof.
  intros Hq Hne Hp.
  assert (Hfs : Download.finalSize (query req !! "size") = NaN).
  { apply finalSize_NaN. rewrite Hq. cbn.
    destruct str; [contradiction | exact Hp]. }
  split; [exact Hfs|].
  unfold Download.download. rewrite Hfs, start_NaN. reflexivity.
Qed.

Lemma download_unparsable_size_is_NaN_witness :
  Download.finalSize (query (Scenario.get_download "abc") !! "size") = NaN
  /\ Download.download Scenario.every_other (Scenario.get_download "abc") =
       Download.Failed (res_error 500 "Download failed").
Proof.
  apply (download_unparsable_size_is_NaN
           Scenario.every_other (Scenario.get_download "abc") "abc").
  - reflexivity.
  - discriminate.
  - reflexivity.
Defined.

(** C9 as stated fails on [?size=]: the parameter is present and
    [parseInt] answers [NaN] on it, but the empty string is falsy, so the
    handler takes the default and streams 100 MiB. *)
Lemma download_empty_size_gets_default :
  query (Scenario.get_download "") !! "size" = Some EmptyString
  /\ parseInt "" = NaN
  /\ Download.finalSize (query (Scenario.get_download "") !! "size")
       = Num (100 * 1024 * 1024)
  /\ Download.finalSize (query (Scenario.get_download "") !! "size") <> NaN
  /\ exists s0 : Download.Session,
       Download.download Scenario.every_other (Scenario.get_download "")
         = Download.Streaming s0
       /\ Download.written s0 = [64 * 1024].
Proof.
  split; [reflexivity|]. split; [reflexivity|]. split; [reflexivity|].
  split; [discriminate|]. eexists. split; reflexivity.
Qed.

(** C6: in every session the handler starts, [sentBytes] stays between 0
    and the target, the chunk size is 64 KiB, and every call of
    [sendChunk] (the first one, and one per awaited event) adds exactly
    min(chunkSize, target - sentBytes) to it, which is more than nothing
    as long as the target is not reached; other events leave it alone. *)
Theorem sent_counter_invariant
        (canContinue : nat -> bool) (req : Request) (s0 : Download.Session) :
  Download.download canContinue req = Download.Streaming s0 ->
  exists t : Z,
    Download.target s0 = Num t
    /\ Download.chunkSize = 64 * 1024
    /\ Download.sent s0 = 0 + Z.min Download.chunkSize (t - 0)
    /\ Download.reachable canContinue (Num t) s0
    /\ forall s : Download.Session,
        Download.reachable canContinue (Num t) s ->
        0 <= Download.sent s <= t
        /\ forall e : Download.event,
            exists s' : Download.Session,
              Download.step canContinue e s = Some s'
              /\ (Download.next_event s = Some e ->
                  Download.sent s' =
                    Download.sent s
                    + Z.min Download.chunkSize (t - Download.sent s)
                  /\ (Download.sent s < t ->
                      Download.sent s < Download.sent s'))
              /\ (Download.next_event s <> Some e ->
                  Download.sent s' = Download.sent s).
Proof.
  intros Hd. destruct (download_streaming canContinue req s0 Hd)
    as (t & Hfs & Hs0).
  pose proof (minSize_positive t (finalSize_range _ _ Hfs)) as Hpos.
  destruct (start_settled canContinue t Hpos) as (s & Hs & Hset0 & Hsent & _).
  assert (s = s0) by congruence. subst s.
  exists t. split; [apply Hset0|]. split; [reflexivity|].
  split; [rewrite Hsent; f_equal; lia|].
  split; [apply Download.reach_start; exact Hs0|].
  intros s Hreach.
  pose proof (reachable_settled canContinue t Hpos s Hreach) as Hset.
  split; [apply Hset|]. intros e.
  destruct (step_settled canContinue t Hpos e s Hset)
    as (s' & Hs' & Hset' & Hrun & Hidle).
  exists s'. split; [exact Hs'|]. split.
  - intros Hnext. destruct (Hrun Hnext) as (Hadd & _).
    split; [exact Hadd|]. intros Hlt. rewrite Hadd.
    pose proof chunkSize_value. lia.
  - intros Hne. rewrite (Hidle Hne). reflexivity.
Qed.

Lemma sent_counter_invariant_witness :
  exists t : Z,
    Download.target Scenario.first_chunk_accepted = Num t
    /\ Download.sent Scenario.first_chunk_accepted
       = 0 + Z.min Download.chunkSize (t - 0).
Proof.
  destruct (sent_counter_invariant Scenario.every_other
              (Scenario.get_download "10") Scenario.first_chunk_accepted)
    as (t & Ht & _ & Hsent & _).
  - reflexivity.
  - exists t. split; assumption.
Defined.

(** *** Backpressure *)

Lemma phase_of_waiting (s : Download.Session) :
  Download.phase_of s = Download.WaitingForDrain <->
  Download.isDraining s = true.
Proof.
  unfold Download.phase_of. destruct (Download.isDraining s);
    split; intros H; try reflexivity; discriminate.
Qed.

Lemma phase_of_writing (s : Download.Session) :
  Download.phase_of s = Download.Writing <-> Download.isDraining s = false.
Proof.
  unfold Download.phase_of. destruct (Download.isDraining s);
    split; intros H; try reflexivity; discriminate.
Qed.

Lemma settled_waiting (t : Z) (s : Download.Session) :
  Download.settled t s ->
  Download.isDraining s = true ->
  Download.nextTicks s = 0%nat /\ Download.drainOnce s = 1%nat
  /\ Download.ended s = 0%nat
  /\ Download.next_event s = Some Download.EmitDrain.
Proof.
  intros (_ & _ & [H|[H|H]]) Hdr.
  - destruct H as (_ & _ & _ & H & _). congruence.
  - destruct H as (Hn & Hd & He & _). unfold Download.next_event.
    rewrite Hn, Hd. repeat split; assumption.
  - destruct H as (_ & _ & _ & H & _). congruence.
Qed.

Lemma settled_not_waiting (t : Z) (s : Download.Session) :
  Download.settled t s ->
  Download.isDraining s = false ->
  Download.drainOnce s = 0%nat
  /\ Download.next_event s <> Some Download.EmitDrain.
Proof.
  intros (_ & _ & [H|[H|H]]) Hdr.
  - destruct H as (Hn & Hd & _). unfold Download.next_event.
    rewrite Hn. split; [exact Hd | discriminate].
  - destruct H as (_ & _ & _ & H). congruence.
  - destruct H as (Hn & Hd & _). unfold Download.next_event.
    rewrite Hn, Hd. split; [reflexivity | discriminate].
Qed.

Lemma ticks_while_idle (canContinue : nat -> bool) (n : nat)
      (s : Download.Session) :
  Download.nextTicks s = 0%nat ->
  Download.steps canContinue (repeat Download.RunTick n) s = Some s.
Proof.
  intros Hn. induction n as [|n IH]; cbn; [reflexivity|].
  rewrite Hn. cbn. exact IH.
Qed.

(** C5: the writer is a two-state machine on [isDraining].  The answer
    of each write decides the state after it: [WaitingForDrain] when the
    write is rejected, [Writing] otherwise.  While waiting, one drain
    listener is installed and no tick is queued, so no number of
    event-loop turns writes anything or changes the session; only the
    ['drain'] event does, by clearing the flag and calling [sendChunk].
    The state changes from [Writing] to [WaitingForDrain] by a rejected
    write only, and back by the drain event only. *)
Theorem writer_waits_for_drain (canContinue : nat -> bool) (t : Z) :
  Download.minSize <= t <= Download.maxSize ->
  (exists s0 : Download.Session,
      Download.start canContinue (Num t) = Some s0
      /\ Download.phase_of s0 =
           if canContinue 0%nat then Download.Writing
           else Download.WaitingForDrain)
  /\ forall s : Download.Session,
      Download.reachable canContinue (Num t) s ->
      (Download.phase_of s = Download.WaitingForDrain ->
         Download.nextTicks s = 0%nat
         /\ Download.drainOnce s = 1%nat
         /\ Download.ended s = 0%nat
         /\ (forall n : nat,
               Download.steps canContinue (repeat Download.RunTick n) s
                 = Some s)
         /\ Download.step canContinue Download.EmitDrain s =
              Download.sendChunk canContinue
                (Download.set_isDraining false (Download.set_drainOnce 0 s)))
      /\ (Download.phase_of s = Download.Writing ->
            Download.drainOnce s = 0%nat
            /\ Download.step canContinue Download.EmitDrain s = Some s)
      /\ forall (e : Download.event) (s' : Download.Session),
          Download.step canContinue e s = Some s' ->
          (Download.written s' <> Download.written s ->
             Download.phase_of s' =
               if canContinue (length (Download.written s))
               then Download.Writing else Download.WaitingForDrain)
          /\ (Download.phase_of s = Download.Writing ->
              Download.phase_of s' = Download.WaitingForDrain ->
              Download.written s' <> Download.written s
              /\ canContinue (length (Download.written s)) = false)
          /\ (Download.phase_of s = Download.WaitingForDrain ->
              s' <> s -> e = Download.EmitDrain).
Proof.
  intros Hrange. pose proof (minSize_positive t Hrange) as Hpos. split.
  { destruct (sendChunk_entering canContinue t Hpos _ (entering_init t Hpos))
      as (s0 & Hs0 & _ & _ & Hw & _).
    exists s0. split; [exact Hs0|]. cbn in Hw.
    destruct (Hw Hpos) as [_ Hdr]. unfold Download.phase_of. rewrite Hdr.
    destruct (canContinue 0%nat); reflexivity. }
  intros s Hreach.
  pose proof (reachable_settled canContinue t Hpos s Hreach) as Hset.
  split; [|split].
  - intros Hph. apply phase_of_waiting in Hph.
    destruct (settled_waiting t s Hset Hph) as (Hn & Hd & He & _).
    repeat split; try assumption.
    + intros n. apply ticks_while_idle. exact Hn.
    + unfold Download.step. rewrite Hd. cbn. unfold Download.onDrain.
      destruct (Download.sendChunk _ _); reflexivity.
  - intros Hph. apply phase_of_writing in Hph.
    destruct (settled_not_waiting t s Hset Hph) as (Hd & Hne).
    split; [exact Hd|].
    destruct (step_settled canContinue t Hpos Download.EmitDrain s Hset)
      as (s' & Hs' & _ & _ & Hidle).
    rewrite Hs'. f_equal. apply Hidle. exact Hne.
  - intros e s' Hstep.
    destruct (step_settled canContinue t Hpos e s Hset)
      as (s1 & Hs1 & Hset' & Hrun & Hidle).
    assert (s1 = s') by congruence. subst s1.
    assert (Hwrote : Download.written s' <> Download.written s ->
                     Download.isDraining s' =
                       negb (canContinue (length (Download.written s)))).
    { intros Hw.
      destruct (decide (Download.next_event s = Some e)) as [Hnext|Hnext].
      - destruct (Hrun Hnext) as (_ & Hlt & Heq).
        destruct (Z.eq_dec (Download.sent s) t) as [E|E].
        + destruct (Heq E) as [Hsame _]. contradiction.
        + apply Hlt. destruct Hset as ((_ & Hr & _) & _). lia.
      - rewrite (Hidle Hnext) in Hw. contradiction. }
    split; [|split].
    + intros Hw. unfold Download.phase_of. rewrite (Hwrote Hw).
      destruct (canContinue _); reflexivity.
    + intros Hph Hph'. apply phase_of_writing in Hph.
      apply phase_of_waiting in Hph'.
      assert (Hw : Download.written s' <> Download.written s).
      { destruct (decide (Download.next_event s = Some e)) as [Hnext|Hnext].
        - destruct (Hrun Hnext) as (_ & Hlt & Heq).
          destruct (Z.eq_dec (Download.sent s) t) as [E|E].
          + destruct (Heq E) as [_ Hend].
            destruct (settled_ended t s' Hset' Hend) as (_ & _ & _ & Hf).
            congruence.
          + destruct Hset as ((_ & Hr & _) & _).
            destruct Hlt as [Hw _]; [lia|]. rewrite Hw.
            intros Habs. apply (f_equal (@length Z)) in Habs.
            cbn in Habs. lia.
        - rewrite (Hidle Hnext) in Hph'. congruence. }
      split; [exact Hw|]. rewrite (Hwrote Hw) in Hph'.
      destruct (canContinue _); [discriminate | reflexivity].
    + intros Hph Hne. apply phase_of_waiting in Hph.
      destruct (settled_waiting t s Hset Hph) as (_ & _ & _ & Hnext).
      destruct e; [|reflexivity].
      exfalso. apply Hne. apply Hidle. rewrite Hnext. discriminate.
Qed.

Lemma writer_waits_for_drain_witness :
  exists s0 : Download.Session,
    Download.start Scenario.every_other (Num (50 * 1024 * 1024)) = Some s0
    /\ Download.phase_of s0 = Download.Writing.
Proof.
  destruct (writer_waits_for_drain Scenario.every_other (50 * 1024 * 1024))
    as [(s0 & Hs0 & Hph) _].
  - unfold Download.minSize, Download.maxSize. lia.
  - exists s0. split; [exact Hs0 | exact Hph].
Defined.

(** *** The upload handler *)



Lemma deliver_all_app (es1 es2 : list Upload.event) (kc : Upload.Conn * Clock) :
  Upload.deliver_all (es1 ++ es2) kc =
    Upload.deliver_all es2 (Upload.deliver_all es1 kc).
Proof. apply fold_left_app. Qed.

(** The ['data'] events of a body add up its bytes and touch nothing else. *)
Lemma deliver_all_data (chunks : list (list Byte.byte)) :
  forall (k : Upload.Conn) (c : Clock) (env : Upload.Closure),
    Upload.listeners k = Some env ->
    exists k' : Upload.Conn,
      Upload.deliver_all (map Upload.Data chunks) (k, c) = (k', c)
      /\ Upload.response k' = Upload.response k
      /\ Upload.console k' = Upload.console k
      /\ Upload.listeners k' =
           Some {| Upload.startTime := Upload.startTime env;
                   Upload.sizeBytes := Upload.sizeBytes env;
                   Upload.receivedBytes :=
                     Upload.receivedBytes env + Upload.body_length chunks |}.
Proof.
  induction chunks as [|chunk chunks IH]; intros k c env Hl.
  - exists k. cbn. rewrite Z.add_0_r. destruct env. auto.
  - cbn [map Upload.deliver_all fold_left]. unfold Upload.deliver at 2.
    rewrite Hl.
    destruct (IH (Upload.install (Upload.onData chunk env) k) c
                 (Upload.onData chunk env) eq_refl)
      as (k' & Hk' & Hr & Hc & Hl').
    exists k'. split; [exact Hk'|]. split; [exact Hr|]. split; [exact Hc|].
    rewrite Hl'. cbn. f_equal. f_equal.
    fold (Upload.body_length chunks). lia.
Qed.

Lemma upload_accepts (req : Request) (cl : string) (E : Z) (c : Clock) :
  headers req !! "content-length" = Some cl ->
  parseInt cl = Num E ->
  0 < E ->
  Upload.upload req c =
    (Upload.install {| Upload.startTime := readings c (reads c);
                       Upload.sizeBytes := Num E;
                       Upload.receivedBytes := 0 |} Upload.fresh,
     {| readings := readings c; reads := S (reads c) |}).
Proof.
  intros Hh Hp HE. unfold Upload.upload, Date_now. rewrite Hh.
  rewrite (parseInt_Num_truthy cl E Hp), Hp. cbn.
  destruct (Z.leb_spec E 0); [lia | reflexivity].
Qed.




(** C4 (as amended): an upload with a valid declared length [E] whose
    body arrives in [chunks] and then ends is answered
    [{received, expected, duration, timestamp}]: [received] is the sum of
    the lengths of the chunks, whatever [E] is; [expected] is [E];
    [timestamp] is the clock reading [endTime] taken at the end of the
    body; [duration] is [(endTime - startTime) / 1000] for the reading
    [startTime] taken when the handler began, and is not negative when
    the clock did not go back between the two readings.  With a body of
    [E] bytes, [received] and [expected] agree. *)
Theorem upload_reports_bytes_received
        (req : Request) (cl : string) (E : Z)
        (chunks : list (list Byte.byte)) (c : Clock) :
  headers req !! "content-length" = Some cl ->
  parseInt cl = Num E ->
  0 < E ->
  exists r : Upload.Report,
    Upload.response (fst (Upload.exchange req chunks c)) = Some (res_json r)
    /\ Upload.received r = Upload.body_length chunks
    /\ Upload.expected r = Num E
    /\ Upload.timestamp r = readings c (S (reads c))
    /\ Upload.duration r =
         Qmake (readings c (S (reads c)) - readings c (reads c)) 1000
    /\ (readings c (reads c) <= readings c (S (reads c)) ->
        (0 <= Upload.duration r)%Q)
    /\ (Upload.body_length chunks = E ->
        Num (Upload.received r) = Upload.expected r).
Proof.
  intros Hh Hp HE. unfold Upload.exchange.
  rewrite (upload_accepts req cl E c Hh Hp HE), deliver_all_app.
  destruct (deliver_all_data chunks
              (Upload.install {| Upload.startTime := readings c (reads c);
                                 Upload.sizeBytes := Num E;
                                 Upload.receivedBytes := 0 |} Upload.fresh)
              {| readings := readings c; reads := S (reads c) |}
              _ eq_refl) as (k' & Hk' & Hr & _ & Hl').
  rewrite Hk'. unfold Upload.deliver_all. cbn [fold_left].
  unfold Upload.deliver. rewrite Hl'.
  unfold Upload.onEnd, Upload.headersSent, Date_now. rewrite Hr. cbn.
  eexists. split; [reflexivity|]. cbn.
  repeat split.
  - intros Hclock. unfold Qle. cbn. lia.
  - intros ->. reflexivity.
Qed.

Lemma upload_reports_bytes_received_witness :
  exists r : Upload.Report,
    Upload.response
      (fst (Upload.exchange (Scenario.post_upload "3") Scenario.three_bytes
              Scenario.steady_clock)) = Some (res_json r)
    /\ Upload.received r = 3
    /\ Upload.expected r = Num 3
    /\ (0 <= Upload.duration r)%Q.
Proof.
  destruct (upload_reports_bytes_received
              (Scenario.post_upload "3") "3" 3 Scenario.three_bytes
              Scenario.steady_clock)
    as (r & Hr & Hrec & Hexp & _ & _ & Hdur & _).
  - reflexivity.
  - reflexivity.
  - lia.
  - exists r. split; [exact Hr|]. split; [exact Hrec|]. split; [exact Hexp|].
    apply Hdur. unfold Scenario.steady_clock, readings, reads. lia.
Defined.

(** C4 as stated fails on its [duration >= 0]: with the server clock set
    back during a complete 3-byte upload declared as 3 bytes, the response
    reports a negative duration. *)
Lemma upload_duration_can_be_negative :
  Upload.response
    (fst (Upload.exchange (Scenario.post_upload "3") Scenario.three_bytes
            Scenario.clock_set_back))
  = Some (res_json {| Upload.received := 3;
                      Upload.expected := Num 3;
                      Upload.duration := Qmake (-2000) 1000;
                      Upload.timestamp := 3000 |})
  /\ ~ (0 <= Qmake (-2000) 1000)%Q.
Proof.
  split; [reflexivity|]. unfold Qle. cbn. lia.
Qed.

(** *** Decimal strings: [toString] and [parseInt] *)

Lemma append_String (c : ascii) (s rest : string) :
  (String c s ++ rest)%string = String c (s ++ rest)%string.
Proof. reflexivity. Qed.

Lemma append_Empty (rest : string) : (EmptyString ++ rest)%string = rest.
Proof. reflexivity. Qed.

Lemma append_append (a b c : string) :
  ((a ++ b) ++ c)%string = (a ++ (b ++ c))%string.
Proof.
  induction a as [|x a IH]; [reflexivity|].
  rewrite !append_String, IH. reflexivity.
Qed.

Lemma digitChar_digit (d : Z) :
  0 <= d < 10 ->
  digitValue (Headers.digitChar d) = Some d
  /\ isWhiteSpace (Headers.digitChar d) = false
  /\ Headers.digitChar d <> "-"%char
  /\ Headers.digitChar d <> "+"%char.
Proof.
  intros Hd.
  assert (Hcases : d = 0 \/ d = 1 \/ d = 2 \/ d = 3 \/ d = 4 \/ d = 5
                   \/ d = 6 \/ d = 7 \/ d = 8 \/ d = 9) by lia.
  repeat (destruct Hcases as [-> | Hcases]); try subst d;
    (split; [reflexivity|]; split; [reflexivity|]; split; discriminate).
Qed.

Lemma decimal_S (fuel : nat) (n : Z) :
  Headers.decimal (S fuel) n =
    if n <? 10 then String (Headers.digitChar n) EmptyString
    else (Headers.decimal fuel (n / 10)
          ++ String (Headers.digitChar (n mod 10)) EmptyString)%string.
Proof. reflexivity. Qed.

Lemma digits_settled (v : Z) (rest : string) :
  Headers.no_leading_digit rest -> digits (Some v) rest = Some v.
Proof. destruct rest as [|c r]; cbn; [reflexivity | intros ->; reflexivity]. Qed.

(** Reading back the digits of [n]: what follows is read with [n]
    accumulated. *)
Lemma digits_decimal (fuel : nat) :
  forall (n : Z) (rest : string),
    0 <= n < 2 ^ Z.of_nat (S fuel) ->
    digits None (Headers.decimal (S fuel) n ++ rest)%string =
      digits (Some n) rest.
Proof.
  assert (Hone : forall (acc : option Z) (d : Z) (rest : string),
             0 <= d < 10 ->
             digits acc (String (Headers.digitChar d) rest) =
               digits (Some (10 * default 0 acc + d)) rest).
  { intros acc d rest Hd. cbn [digits].
    destruct (digitChar_digit d Hd) as (-> & _). reflexivity. }
  induction fuel as [|fuel IH]; intros n rest Hn.
  - rewrite (decimal_S _ n). destruct (Z.ltb_spec n 10) as [Hlt|Hge].
    + rewrite append_String, append_Empty, Hone by lia. reflexivity.
    + change (2 ^ Z.of_nat 1) with 2 in Hn. lia.
  - rewrite (decimal_S _ n). destruct (Z.ltb_spec n 10) as [Hlt|Hge].
    + rewrite append_String, append_Empty, Hone by lia. reflexivity.
    + rewrite append_append. rewrite IH.
      * rewrite append_String, append_Empty.
        rewrite Hone by (apply Z.mod_pos_bound; lia).
        cbn [default]. unfold id. do 2 f_equal.
        pose proof (Z.div_mod n 10). lia.
      * rewrite Nat2Z.inj_succ, Z.pow_succ_r in Hn by lia.
        split; [apply Z.div_pos; lia|].
        apply Z.div_lt_upper_bound; lia.
Qed.

Lemma decimal_head (fuel : nat) :
  forall n : Z,
    0 <= n ->
    exists (d : Z) (r : string),
      0 <= d < 10 /\ Headers.decimal (S fuel) n = String (Headers.digitChar d) r.
Proof.
  induction fuel as [|fuel IH]; intros n Hn; rewrite (decimal_S _ n).
  - destruct (Z.ltb_spec n 10).
    + exists n, EmptyString. split; [lia | reflexivity].
    + exists (n mod 10), EmptyString.
      split; [apply Z.mod_pos_bound; lia | reflexivity].
  - destruct (Z.ltb_spec n 10).
    + exists n, EmptyString. split; [lia | reflexivity].
    + destruct (IH (n / 10)) as (d & r & Hd & ->); [apply Z.div_pos; lia|].
      exists d. eexists. split; [exact Hd | reflexivity].
Qed.

Lemma log2_fuel (n : Z) : 0 <= n -> n < 2 ^ Z.of_nat (S (Z.to_nat (Z.log2 n))).
Proof.
  intros Hn. rewrite Nat2Z.inj_succ, Z2Nat.id by apply Z.log2_nonneg.
  destruct (Z.eq_dec n 0) as [->|Hne]; [reflexivity|].
  apply Z.log2_spec. lia.
Qed.

Lemma trimStart_blank (ws s : string) :
  Headers.blank ws = true -> trimStart (ws ++ s)%string = trimStart s.
Proof.
  induction ws as [|c ws IH]; [reflexivity|].
  rewrite append_String. cbn [Headers.blank trimStart].
  intros H. apply andb_prop in H as [-> H]. exact (IH H).
Qed.

(** [parseInt] reads an integer back from its decimal string, whatever
    white space comes before it and whatever non-digit comes after. *)
Lemma parseInt_decimal (ws junk : string) (z : Z) :
  Headers.blank ws = true ->
  Headers.no_leading_digit junk ->
  parseInt (ws ++ Headers.toString (Num z) ++ junk)%string = Num z.
Proof.
  intros Hws Hjunk. unfold parseInt. rewrite (trimStart_blank _ _ Hws).
  unfold Headers.toString. destruct (Z.ltb_spec z 0) as [Hneg|Hpos].
  - rewrite append_String. cbn [trimStart].
    change (isWhiteSpace "-"%char) with false. cbn iota.
    rewrite digits_decimal by (split; [lia | apply log2_fuel; lia]).
    rewrite (digits_settled _ _ Hjunk). f_equal. lia.
  - destruct (decimal_head (Z.to_nat (Z.log2 z)) z Hpos) as (d & r & Hd & Hhead).
    destruct (digitChar_digit d Hd) as (_ & Hw & Hminus & Hplus).
    assert (Htrim : forall t : string,
               trimStart (String (Headers.digitChar d) t) =
                 String (Headers.digitChar d) t)
      by (intros t; cbn; rewrite Hw; reflexivity).
    pose proof (digits_decimal (Z.to_nat (Z.log2 z)) z junk
                  (conj Hpos (log2_fuel z Hpos))) as Hdig.
    rewrite Hhead in Hdig |- *. rewrite append_String in Hdig |- *.
    rewrite Htrim.
    destruct (Headers.digitChar d) as [[] [] [] [] [] [] [] []];
      try (exfalso; apply Hminus; reflexivity);
      try (exfalso; apply Hplus; reflexivity);
      rewrite Hdig, (digits_settled _ _ Hjunk); f_equal; lia.
Qed.

Lemma append_Empty_r (s : string) : (s ++ EmptyString)%string = s.
Proof.
  induction s as [|c s IH]; [reflexivity|].
  rewrite append_String, IH. reflexivity.
Qed.

Lemma parseInt_toString (z : Z) : parseInt (Headers.toString (Num z)) = Num z.
Proof.
  pose proof (parseInt_decimal EmptyString EmptyString z eq_refl I) as Hp.
  rewrite append_Empty, append_Empty_r in Hp. exact Hp.
Qed.

(** *** More on the chunk loop *)

Section ChunkLoopTraces.
Import Download.

Variable canContinue : nat -> bool.
Variable t : Z.
Hypothesis t_positive : 0 < t.

Lemma steps_settled (es : list event) :
  forall s : Session,
    settled t s ->
    exists s' : Session, steps canContinue es s = Some s' /\ settled t s'.
Proof.
  induction es as [|e es IH]; intros s Hset; cbn.
  - exists s. split; [reflexivity | exact Hset].
  - destruct (step_settled canContinue t t_positive e s Hset)
      as (s1 & Hs1 & Hset1 & _).
    rewrite Hs1. cbn. exact (IH s1 Hset1).
Qed.

Lemma steps_reachable (es : list event) :
  forall s s' : Session,
    reachable canContinue (Num t) s ->
    steps canContinue es s = Some s' ->
    reachable canContinue (Num t) s'.
Proof.
  induction es as [|e es IH]; intros s s' Hreach Hsteps; cbn in Hsteps.
  - injection Hsteps as <-. exact Hreach.
  - destruct (step canContinue e s) as [s1|] eqn:Hs1; cbn in Hsteps;
      [|discriminate].
    apply (IH s1 s'); [|exact Hsteps].
    exact (reach_step canContinue (Num t) e s s1 Hreach Hs1).
Qed.

Lemma steps_after_end (es : list event) (s : Session) :
  settled t s -> ended s = 1%nat -> steps canContinue es s = Some s.
Proof.
  intros Hset Hend. induction es as [|e es IH]; cbn; [reflexivity|].
  destruct (step_settled canContinue t t_positive e s Hset)
    as (s1 & Hs1 & _ & _ & Hidle).
  destruct (settled_ended t s Hset Hend) as (Hquiet & _).
  rewrite Hs1, (Hidle ltac:(rewrite Hquiet; discriminate)). cbn. exact IH.
Qed.

Lemma run_settled (fuel : nat) :
  forall s s' : Session,
    settled t s -> run canContinue fuel s = Some s' -> settled t s'.
Proof.
  induction fuel as [|fuel IH]; intros s s' Hset Hrun; cbn in Hrun.
  - injection Hrun as <-. exact Hset.
  - destruct (next_event s) as [e|]; [|injection Hrun as <-; exact Hset].
    destruct (step_settled canContinue t t_positive e s Hset)
      as (s1 & Hs1 & Hset1 & _).
    rewrite Hs1 in Hrun. cbn in Hrun. exact (IH s1 s' Hset1 Hrun).
Qed.

Lemma run_reachable (fuel : nat) :
  forall s s' : Session,
    reachable canContinue (Num t) s ->
    run canContinue fuel s = Some s' ->
    reachable canContinue (Num t) s'.
Proof.
  induction fuel as [|fuel IH]; intros s s' Hreach Hrun; cbn in Hrun.
  - injection Hrun as <-. exact Hreach.
  - destruct (next_event s) as [e|]; [|injection Hrun as <-; exact Hreach].
    destruct (step canContinue e s) as [s1|] eqn:Hs1; cbn in Hrun;
      [|discriminate].
    apply (IH s1 s'); [|exact Hrun].
    exact (reach_step canContinue (Num t) e s s1 Hreach Hs1).
Qed.

Lemma settled_quiet (s : Session) :
  settled t s -> next_event s = None ->
  ended s = 1%nat /\ total (written s) = t.
Proof.
  intros Hset Hquiet. pose proof Hset as (_ & _ & Hctl).
  assert (He : ended s = 1%nat).
  { unfold next_event in Hquiet.
    destruct Hctl as [H|[H|H]]; destruct H as (Hn & Hd & He & _);
      rewrite Hn in Hquiet; try rewrite Hd in Hquiet;
      try discriminate; exact He. }
  split; [exact He | apply (settled_ended t s Hset He)].
Qed.

(** How the bytes sent so far are cut into writes: full chunks, then the
    latest write, which is full too as long as the target is not reached. *)
Lemma reachable_layout (s : Session) :
  reachable canContinue (Num t) s ->
  exists (last : Z) (k : nat),
    written s = last :: repeat chunkSize k
    /\ sent s = last + chunkSize * Z.of_nat k
    /\ 0 < last <= chunkSize
    /\ (sent s < t -> last = chunkSize).
Proof.
  pose proof chunkSize_value as Hc.
  induction 1 as [s Hstart | e s s' Hreach IH Hstep].
  - destruct (start_settled canContinue t t_positive)
      as (s0 & Hs0 & _ & Hsent & Hw).
    assert (s0 = s) by congruence. subst s0.
    exists (Z.min chunkSize t), 0%nat. rewrite Hw, Hsent. cbn.
    repeat split; lia.
  - pose proof (reachable_settled canContinue t t_positive s Hreach) as Hset.
    destruct (step_settled canContinue t t_positive e s Hset)
      as (s1 & Hs1 & _ & Hrun & Hidle).
    assert (s1 = s') by congruence. subst s1.
    destruct IH as (last & k & Hw & Hsent & Hlast & Hfull).
    destruct (decide (next_event s = Some e)) as [Hnext|Hnext];
      [|rewrite (Hidle Hnext); exists last, k; auto].
    destruct (Hrun Hnext) as (Hadd & Hlt & Heq).
    destruct Hset as ((_ & Hrange & _) & _).
    destruct (Z.eq_dec (sent s) t) as [E|E].
    + destruct (Heq E) as [Hsame _]. exists last, k.
      rewrite Hsame, Hadd, E, Z.sub_diag. repeat split; try lia; auto.
    + destruct Hlt as [Hw' _]; [lia|].
      exists (Z.min chunkSize (t - sent s)), (S k).
      rewrite Hw', Hw, Hadd, (Hfull ltac:(lia)).
      split; [reflexivity|]. rewrite Nat2Z.inj_succ.
      assert (last = chunkSize) by (apply Hfull; lia).
      repeat split; lia.
Qed.

End ChunkLoopTraces.

(** X1: however the transport answers, the bytes sent so far are cut
    into writes of exactly 64 KiB followed by the latest write, which is
    shorter only when it reaches the target: the number of writes is the
    number of 64 KiB chunks needed for the bytes sent. *)
Theorem download_chunks_full_but_last
        (canContinue : nat -> bool) (t : Z) (s : Download.Session) :
  Download.minSize <= t <= Download.maxSize ->
  Download.reachable canContinue (Num t) s ->
  exists (last : Z) (rest : list Z),
    Download.written s = last :: rest
    /\ Forall (fun n => n = 64 * 1024) rest
    /\ 0 < last <= 64 * 1024
    /\ (Download.sent s < t -> last = 64 * 1024)
    /\ Z.of_nat (length (Download.written s))
       = Download.chunks_for (Download.sent s).
Proof.
  intros Hrange Hreach. pose proof (minSize_positive t Hrange) as Hpos.
  destruct (reachable_layout canContinue t Hpos s Hreach)
    as (last & k & Hw & Hsent & Hlast & Hfull).
  pose proof chunkSize_value as Hc.
  exists last, (repeat Download.chunkSize k).
  split; [exact Hw|]. split.
  { clear Hw Hsent. induction k as [|k IH]; cbn; constructor;
      [reflexivity | exact IH]. }
  split; [lia|]. split; [intros H; rewrite (Hfull H); reflexivity|].
  rewrite Hw. cbn [length]. rewrite repeat_length, Hsent.
  unfold Download.chunks_for. rewrite Hc in *.
  rewrite Nat2Z.inj_succ. Z.div_mod_to_equations. lia.
Qed.

Lemma download_chunks_full_but_last_witness :
  exists (last : Z) (rest : list Z),
    Download.written Scenario.first_chunk_accepted = last :: rest
    /\ Forall (fun n => n = 64 * 1024) rest.
Proof.
  destruct (download_chunks_full_but_last Scenario.every_other
              (50 * 1024 * 1024) Scenario.first_chunk_accepted)
    as (last & rest & Hw & Hall & _).
  - unfold Download.minSize, Download.maxSize. lia.
  - apply Download.reach_start. reflexivity.
  - exists last, rest. split; assumption.
Defined.

(** X2: the writes depend on the byte count only, not on the answers of
    the transport: two sessions with the same target that have sent the
    same number of bytes have made the same writes, whatever backpressure
    each has met. *)
Theorem download_writes_do_not_depend_on_transport
        (canContinue1 canContinue2 : nat -> bool) (t : Z)
        (s1 s2 : Download.Session) :
  Download.minSize <= t <= Download.maxSize ->
  Download.reachable canContinue1 (Num t) s1 ->
  Download.reachable canContinue2 (Num t) s2 ->
  Download.sent s1 = Download.sent s2 ->
  Download.written s1 = Download.written s2.
Proof.
  intros Hrange H1 H2 Hsent. pose proof (minSize_positive t Hrange) as Hpos.
  destruct (reachable_layout canContinue1 t Hpos s1 H1)
    as (l1 & k1 & Hw1 & Hs1 & Hl1 & _).
  destruct (reachable_layout canContinue2 t Hpos s2 H2)
    as (l2 & k2 & Hw2 & Hs2 & Hl2 & _).
  pose proof chunkSize_value as Hc. rewrite Hc in *.
  assert (k1 = k2) by lia. subst k2.
  assert (l1 = l2) by lia. subst l2.
  rewrite Hw1, Hw2. reflexivity.
Qed.

Lemma download_writes_do_not_depend_on_transport_witness :
  Download.written Scenario.first_chunk_accepted
  = Download.written Cases.first_chunk_rejected.
Proof.
  apply (download_writes_do_not_depend_on_transport
           Scenario.every_other (fun _ => false) (50 * 1024 * 1024)).
  - unfold Download.minSize, Download.maxSize. lia.
  - apply Download.reach_start. reflexivity.
  - apply Download.reach_start. reflexivity.
  - reflexivity.
Defined.

(** X3: once the response has ended, no event writes, ends or schedules
    anything: every later sequence of ticks and drain events leaves the
    session as it is. *)
Theorem download_nothing_after_end
        (canContinue : nat -> bool) (t : Z) (s : Download.Session)
        (es : list Download.event) :
  Download.minSize <= t <= Download.maxSize ->
  Download.reachable canContinue (Num t) s ->
  Download.ended s = 1%nat ->
  Download.steps canContinue es s = Some s.
Proof.
  intros Hrange Hreach Hend. pose proof (minSize_positive t Hrange) as Hpos.
  apply (steps_after_end canContinue t Hpos); [|exact Hend].
  exact (reachable_settled canContinue t Hpos s Hreach).
Qed.

Lemma download_nothing_after_end_witness :
  exists s : Download.Session,
    Download.reachable Scenario.every_other (Num (50 * 1024 * 1024)) s
    /\ Download.ended s = 1%nat
    /\ Download.steps Scenario.every_other
         [Download.EmitDrain; Download.RunTick; Download.EmitDrain] s
       = Some s.
Proof.
  assert (Hpos : 0 < 50 * 1024 * 1024) by lia.
  destruct (start_settled Scenario.every_other _ Hpos)
    as (s0 & Hs0 & Hset0 & _).
  destruct (run_completes Scenario.every_other _ Hpos _ s0 Hset0 (le_n _))
    as (s & Hrun & _ & Hend).
  assert (Hreach : Download.reachable Scenario.every_other
                     (Num (50 * 1024 * 1024)) s).
  { exact (run_reachable Scenario.every_other (50 * 1024 * 1024) _ s0 s
             (Download.reach_start _ _ s0 Hs0) Hrun). }
  exists s. split; [exact Hreach|]. split; [exact Hend|].
  apply (download_nothing_after_end Scenario.every_other (50 * 1024 * 1024)).
  - unfold Download.minSize, Download.maxSize. lia.
  - exact Hreach.
  - exact Hend.
Defined.

(** X4: after the handler has started a stream, no callback ever throws:
    every sequence of ticks and drain events runs through, so
    [Buffer.allocUnsafe] is never given a bad size outside the handler's
    [try]. *)
Theorem download_callbacks_never_throw
        (canContinue : nat -> bool) (req : Request) (s0 : Download.Session)
        (es : list Download.event) :
  Download.download canContinue req = Download.Streaming s0 ->
  exists s : Download.Session, Download.steps canContinue es s0 = Some s.
Proof.
  intros Hd. destruct (download_streaming canContinue req s0 Hd)
    as (t & Hfs & Hs0).
  pose proof (minSize_positive t (finalSize_range _ _ Hfs)) as Hpos.
  destruct (start_settled canContinue t Hpos) as (s & Hs & Hset & _).
  assert (s = s0) by congruence. subst s.
  destruct (steps_settled canContinue t Hpos es s0 Hset) as (s' & Hs' & _).
  exists s'. exact Hs'.
Qed.

Lemma download_callbacks_never_throw_witness :
  exists s : Download.Session,
    Download.steps Scenario.every_other
      [Download.RunTick; Download.EmitDrain; Download.EmitDrain;
       Download.RunTick]
      Scenario.first_chunk_accepted = Some s.
Proof.
  apply (download_callbacks_never_throw
           Scenario.every_other (Scenario.get_download "10")).
  reflexivity.
Defined.

Lemma accepting_never_drains (canContinue : nat -> bool) (t : Z)
      (s : Download.Session) :
  0 < t ->
  (forall k : nat, canContinue k = true) ->
  Download.reachable canContinue (Num t) s ->
  Download.isDraining s = false /\ Download.drainOnce s = 0%nat.
Proof.
  intros Hpos Hacc Hreach.
  assert (Hdr : Download.isDraining s = false).
  { induction Hreach as [s Hstart | e s s' Hreach IH Hstep].
    - destruct (sendChunk_entering canContinue t Hpos _ (entering_init t Hpos))
        as (s0 & Hs0 & _ & _ & Hw & _).
      unfold Download.start in Hstart.
      assert (s0 = s) by congruence. subst s0.
      destruct (Hw Hpos) as [_ ->]. rewrite Hacc. reflexivity.
    - pose proof (reachable_settled canContinue t Hpos s Hreach) as Hset.
      destruct (step_settled canContinue t Hpos e s Hset)
        as (s1 & Hs1 & Hset1 & Hrun & Hidle).
      assert (s1 = s') by congruence. subst s1.
      destruct (decide (Download.next_event s = Some e)) as [Hnext|Hnext];
        [|rewrite (Hidle Hnext); exact IH].
      destruct (Hrun Hnext) as (_ & Hlt & Heq).
      destruct (Z.eq_dec (Download.sent s) t) as [E|E].
      + destruct (Heq E) as [_ Hend].
        apply (settled_ended t s' Hset1 Hend).
      + destruct Hset as ((_ & Hr & _) & _).
        destruct Hlt as [_ ->]; [lia|]. rewrite Hacc. reflexivity. }
  split; [exact Hdr|].
  apply (settled_not_waiting t s); [|exact Hdr].
  exact (reachable_settled canContinue t Hpos s Hreach).
Qed.

Lemma accepting_run_is_ticks (canContinue : nat -> bool) (t : Z) (fuel : nat) :
  0 < t ->
  (forall k : nat, canContinue k = true) ->
  forall s : Download.Session,
    Download.reachable canContinue (Num t) s ->
    Download.run canContinue fuel s =
      Download.steps canContinue (repeat Download.RunTick fuel) s.
Proof.
  intros Hpos Hacc. induction fuel as [|fuel IH]; intros s Hreach;
    [reflexivity|].
  destruct (accepting_never_drains canContinue t s Hpos Hacc Hreach)
    as [_ Hd].
  cbn [Download.run repeat Download.steps]. unfold Download.next_event.
  rewrite Hd. destruct (Download.nextTicks s) as [|k] eqn:Hn.
  - unfold Download.step. rewrite Hn. cbn.
    symmetry. apply ticks_while_idle. exact Hn.
  - destruct (Download.step canContinue Download.RunTick s) as [s1|] eqn:Hs1;
      cbn; [|reflexivity].
    apply IH. exact (Download.reach_step _ _ _ s s1 Hreach Hs1).
Qed.

(** X5: on a transport that accepts every write the writer never waits:
    no drain listener is ever installed, and the ticks of the event loop
    alone carry the download to its end, with the whole target written. *)
Theorem download_without_backpressure_needs_no_drain
        (canContinue : nat -> bool) (t : Z) :
  (forall k : nat, canContinue k = true) ->
  Download.minSize <= t <= Download.maxSize ->
  (forall s : Download.Session,
      Download.reachable canContinue (Num t) s ->
      Download.isDraining s = false /\ Download.drainOnce s = 0%nat)
  /\ exists s0 final : Download.Session,
      Download.start canContinue (Num t) = Some s0
      /\ Download.steps canContinue
           (repeat Download.RunTick (Z.to_nat (Download.chunks_for t))) s0
         = Some final
      /\ Download.ended final = 1%nat
      /\ Download.total (Download.written final) = t.
Proof.
  intros Hacc Hrange. pose proof (minSize_positive t Hrange) as Hpos.
  split; [intros s; apply accepting_never_drains; assumption|].
  destruct (start_settled canContinue t Hpos) as (s0 & Hs0 & Hset0 & _).
  destruct (run_completes canContinue t Hpos
              (Z.to_nat (Download.chunks_for t)) s0 Hset0
              (steps_left_start canContinue t Hpos s0 Hs0))
    as (final & Hrun & Hsetf & Hend).
  exists s0, final. split; [exact Hs0|]. split.
  - rewrite <- (accepting_run_is_ticks canContinue t _ Hpos Hacc);
      [exact Hrun | apply Download.reach_start; exact Hs0].
  - split; [exact Hend | apply (settled_ended t final Hsetf Hend)].
Qed.

Lemma download_without_backpressure_needs_no_drain_witness :
  Download.isDraining Cases.first_chunk_always_accepted = false
  /\ Download.drainOnce Cases.first_chunk_always_accepted = 0%nat.
Proof.
  apply (proj1 (download_without_backpressure_needs_no_drain
                  (fun _ => true) (50 * 1024 * 1024)
                  (fun _ => eq_refl)
                  ltac:(unfold Download.minSize, Download.maxSize; lia))).
  apply Download.reach_start. reflexivity.
Defined.

(** X6: whatever the request asks for, a stream the handler starts never
    carries more than 200 MiB, and when it has ended it has carried at
    least 50 MiB. *)
Theorem download_payload_is_bounded
        (canContinue : nat -> bool) (req : Request) (s0 : Download.Session) :
  Download.download canContinue req = Download.Streaming s0 ->
  exists t : Z,
    Download.target s0 = Num t
    /\ forall s : Download.Session,
        Download.reachable canContinue (Num t) s ->
        Download.total (Download.written s) <= 200 * 1024 * 1024
        /\ (Download.ended s = 1%nat ->
            50 * 1024 * 1024 <= Download.total (Download.written s)).
Proof.
  intros Hd. destruct (download_streaming canContinue req s0 Hd)
    as (t & Hfs & Hs0).
  pose proof (finalSize_range _ _ Hfs) as Hrange.
  pose proof (minSize_positive t Hrange) as Hpos.
  exists t. split.
  { destruct (start_settled canContinue t Hpos) as (s & Hs & Hset & _).
    assert (s = s0) by congruence. subst s. apply Hset. }
  intros s Hreach.
  pose proof (reachable_settled canContinue t Hpos s Hreach) as Hset.
  pose proof Hset as ((_ & Hr & Hw & _) & _).
  unfold Download.minSize, Download.maxSize in Hrange.
  split; [lia|]. intros Hend.
  destruct (settled_ended t s Hset Hend) as (_ & _ & Htot & _). lia.
Qed.

Lemma download_payload_is_bounded_witness :
  exists t : Z,
    Download.target Scenario.first_chunk_accepted = Num t
    /\ Download.total (Download.written Scenario.first_chunk_accepted)
       <= 200 * 1024 * 1024.
Proof.
  destruct (download_payload_is_bounded Scenario.every_other
              (Scenario.get_download "10") Scenario.first_chunk_accepted)
    as (t & Ht & Hall).
  - reflexivity.
  - exists t. split; [exact Ht|]. cbn. lia.
Defined.


(** On a query that holds strings only, the handler on raw query values
    is the handler of [Download]. *)
Lemma raw_download_of_strings (canContinue : nat -> bool) (req : Request) :
  RawQuery.download canContinue (RawQuery.Text <$> query req)
  = Download.download canContinue req.
Proof.
  unfold RawQuery.download, Download.download, RawQuery.finalSize,
    Download.finalSize, RawQuery.sizeBytes, Download.sizeBytes.
  rewrite lookup_fmap. destruct (query req !! "size"); reflexivity.
Qed.

(** [?size[]=] is answered 500: the array is truthy, and its text, the
    empty string, has no leading integer. *)
Lemma raw_download_empty_array (canContinue : nat -> bool) :
  RawQuery.download canContinue Cases.size_is_empty_array
  = Download.Failed (res_error 500 "Download failed").
Proof. reflexivity. Qed.


(** X8: the size parameter is read by its leading integer: white space
    before it and anything after its digits are ignored, so such a
    parameter is clamped like the plain number. *)
Theorem download_size_read_by_leading_integer
        (canContinue : nat -> bool) (req : Request)
        (ws junk : string) (n : Z) :
  Headers.blank ws = true ->
  Headers.no_leading_digit junk ->
  query req !! "size" = Some (ws ++ Headers.toString (Num n) ++ junk)%string ->
  exists s0 : Download.Session,
    Download.download canContinue req = Download.Streaming s0
    /\ Download.target s0 =
         Num (Z.max (50 * 1024 * 1024) (Z.min (200 * 1024 * 1024) n)).
Proof.
  intros Hws Hjunk Hq.
  pose proof (parseInt_decimal ws junk n Hws Hjunk) as Hp.
  apply (download_of_size canContinue req).
  apply finalSize_clamp. rewrite Hq. cbn [Download.sizeBytes].
  rewrite (parseInt_Num_truthy _ n Hp). exact Hp.
Qed.

Lemma download_size_read_by_leading_integer_witness :
  exists s0 : Download.Session,
    Download.download Scenario.every_other
      (Scenario.get_download " 60000000 bytes") = Download.Streaming s0
    /\ Download.target s0 = Num 60000000.
Proof.
  apply (download_size_read_by_leading_integer Scenario.every_other
           (Scenario.get_download " 60000000 bytes") " " " bytes" 60000000).
  - reflexivity.
  - reflexivity.
  - reflexivity.
Defined.

(** X9: the Content-Length header of a download is the decimal string of
    the target: read back as a number it is the number of bytes the
    response has carried when the stream has come to its end. *)
Theorem download_content_length_is_bytes_streamed
        (canContinue : nat -> bool) (req : Request)
        (h : gmap string string) (s0 : Download.Session) :
  Download.download canContinue req = Download.Streaming s0 ->
  exists (t : Z) (cl : string),
    Headers.download_response_headers req h !! "Content-Length" = Some cl
    /\ cl = Headers.toString (Num t)
    /\ parseInt cl = Num t
    /\ forall (fuel : nat) (final : Download.Session),
        Download.run canContinue fuel s0 = Some final ->
        Download.next_event final = None ->
        Download.total (Download.written final) = t.
Proof.
  intros Hd. destruct (download_streaming canContinue req s0 Hd)
    as (t & Hfs & Hs0).
  pose proof (minSize_positive t (finalSize_range _ _ Hfs)) as Hpos.
  exists t, (Headers.toString (Num t)). split.
  { unfold Headers.download_response_headers, Headers.download_headers,
      Headers.setHeader. rewrite Hfs.
    repeat (rewrite lookup_insert_ne by discriminate).
    apply lookup_insert_eq. }
  split; [reflexivity|]. split; [apply parseInt_toString|].
  intros fuel final Hrun Hquiet.
  destruct (start_settled canContinue t Hpos) as (s & Hs & Hset & _).
  assert (s = s0) by congruence. subst s.
  pose proof (run_settled canContinue t Hpos fuel s0 final Hset Hrun) as Hsetf.
  apply (settled_quiet t final Hsetf Hquiet).
Qed.

Lemma download_content_length_is_bytes_streamed_witness :
  exists (t : Z) (cl : string),
    Headers.download_response_headers (Scenario.get_download "10") ∅
      !! "Content-Length" = Some cl
    /\ parseInt cl = Num t.
Proof.
  destruct (download_content_length_is_bytes_streamed Scenario.every_other
              (Scenario.get_download "10") ∅ Scenario.first_chunk_accepted)
    as (t & cl & Hcl & _ & Hp & _).
  - reflexivity.
  - exists t, cl. split; assumption.
Defined.

(** X10: [noCache] sets its three headers and keeps every other one;
    run twice, as on the routes that name it again after
    [app.use(noCache)], it gives the same headers as run once. *)
Theorem noCache_twice_is_noCache (h : gmap string string) :
  Headers.noCache (Headers.noCache h) = Headers.noCache h
  /\ Headers.noCache h !! "Cache-Control"
     = Some "no-store, no-cache, must-revalidate, private"%string
  /\ Headers.noCache h !! "Pragma" = Some "no-cache"%string
  /\ Headers.noCache h !! "Expires" = Some "0"%string
  /\ forall name : string,
      name <> "Cache-Control"%string ->
      name <> "Pragma"%string ->
      name <> "Expires"%string ->
      Headers.noCache h !! name = h !! name.
Proof.
  unfold Headers.noCache, Headers.setHeader. split.
  { apply map_eq. intros name. rewrite !lookup_insert.
    repeat case_decide; reflexivity. }
  split; [rewrite !lookup_insert; repeat case_decide; congruence|].
  split; [rewrite !lookup_insert; repeat case_decide; congruence|].
  split; [rewrite !lookup_insert; repeat case_decide; congruence|].
  intros name H1 H2 H3. rewrite !lookup_insert.
  repeat case_decide; congruence.
Qed.

(** X11: the download handler sets the three cache headers itself, after
    the middleware: the headers of its response are those it would have
    without [noCache], and its Cache-Control is the handler's value,
    without [private]. *)
Theorem download_headers_override_noCache
        (req : Request) (h : gmap string string) :
  Headers.download_response_headers req h
  = Headers.download_headers (Download.finalSize (query req !! "size")) h
  /\ Headers.download_response_headers req h !! "Cache-Control"
     = Some "no-store, no-cache, must-revalidate"%string.
Proof.
  unfold Headers.download_response_headers, Headers.download_headers,
    Headers.noCache, Headers.setHeader. split.
  - apply map_eq. intros name. rewrite !lookup_insert.
    repeat case_decide; reflexivity.
  - rewrite !lookup_insert. repeat case_decide; congruence.
Qed.

(** *** The listeners of the upload on arbitrary traces *)

Lemma deliver_response_kept (e : Upload.event) (k : Upload.Conn) (c : Clock)
      (r : Response Upload.Report) :
  Upload.response k = Some r ->
  Upload.response (fst (Upload.deliver e (k, c))) = Some r.
Proof.
  intros Hr. unfold Upload.deliver.
  destruct (Upload.listeners k) as [env|]; [|exact Hr].
  destruct e; cbn [fst].
  - exact Hr.
  - unfold Upload.onEnd, Upload.headersSent, Date_now. rewrite Hr. exact Hr.
  - unfold Upload.onError, Upload.headersSent. cbn. rewrite Hr. exact Hr.
  - unfold Upload.onClose, Upload.headersSent. rewrite Hr. exact Hr.
Qed.

Lemma deliver_all_response_kept (es : list Upload.event) :
  forall (kc : Upload.Conn * Clock) (r : Response Upload.Report),
    Upload.response (fst kc) = Some r ->
    Upload.response (fst (Upload.deliver_all es kc)) = Some r.
Proof.
  unfold Upload.deliver_all.
  induction es as [|e es IH]; intros [k c] r Hr; cbn [fold_left];
    [exact Hr|].
  apply IH. apply deliver_response_kept. exact Hr.
Qed.

(** The listeners stay installed, and their counter grows by the bytes
    of each ['data'] event and by nothing else. *)
Lemma deliver_all_listeners (es : list Upload.event) :
  forall (k : Upload.Conn) (c : Clock) (env : Upload.Closure),
    Upload.listeners k = Some env ->
    Upload.listeners (fst (Upload.deliver_all es (k, c))) =
      Some {| Upload.startTime := Upload.startTime env;
              Upload.sizeBytes := Upload.sizeBytes env;
              Upload.receivedBytes :=
                Upload.receivedBytes env + Trace.data_bytes es |}.
Proof.
  unfold Upload.deliver_all.
  induction es as [|e es IH]; intros k c env Hl; cbn [fold_left].
  - cbn. rewrite Z.add_0_r, Hl. destruct env; reflexivity.
  - assert (Hstep : exists (k1 : Upload.Conn) (c1 : Clock),
               Upload.deliver e (k, c) = (k1, c1)
               /\ Upload.listeners k1 =
                    Some {| Upload.startTime := Upload.startTime env;
                            Upload.sizeBytes := Upload.sizeBytes env;
                            Upload.receivedBytes :=
                              Upload.receivedBytes env
                              + Trace.data_bytes [e] |}).
    { unfold Upload.deliver. rewrite Hl. destruct e; cbn.
      - do 2 eexists. split; [reflexivity|]. cbn.
        rewrite Z.add_0_r. reflexivity.
      - unfold Upload.onEnd, Date_now.
        destruct (Upload.headersSent k); do 2 eexists;
          (split; [reflexivity|]); cbn; rewrite Hl, Z.add_0_r;
          destruct env; reflexivity.
      - unfold Upload.onError.
        destruct (Upload.headersSent (Upload.log _ k)); [|destruct writable];
          do 2 eexists;
          (split; [reflexivity|]); cbn; rewrite Hl, Z.add_0_r;
          destruct env; reflexivity.
      - unfold Upload.onClose.
        destruct (negb (Upload.headersSent k) && _); do 2 eexists;
          (split; [reflexivity|]); cbn; rewrite Hl, Z.add_0_r;
          destruct env; reflexivity. }
    destruct Hstep as (k1 & c1 & -> & Hl1).
    rewrite (IH k1 c1 _ Hl1). cbn [Upload.startTime Upload.sizeBytes
                                     Upload.receivedBytes].
    do 2 f_equal.
    assert (Trace.data_bytes (e :: es)
            = Trace.data_bytes [e] + Trace.data_bytes es)
      by (destruct e; cbn [Trace.data_bytes]; lia).
    lia.
Qed.

(** Events on which nothing can go out send no response and read no
    clock. *)
Lemma deliver_all_silent (es : list Upload.event) :
  forall (k : Upload.Conn) (c : Clock),
    Trace.silent es ->
    Upload.response (fst (Upload.deliver_all es (k, c))) = Upload.response k
    /\ snd (Upload.deliver_all es (k, c)) = c.
Proof.
  unfold Upload.deliver_all, Trace.silent.
  induction es as [|e es IH]; intros k c Hq; cbn [fold_left];
    [split; reflexivity|].
  apply Forall_cons in Hq as [He Hq].
  assert (Hstep : exists k1 : Upload.Conn,
             Upload.deliver e (k, c) = (k1, c)
             /\ Upload.response k1 = Upload.response k).
  { unfold Upload.deliver. destruct (Upload.listeners k) as [env|];
      [|exists k; split; reflexivity].
    destruct e as [chunk| |[]|]; try discriminate He.
    - eexists. split; reflexivity.
    - unfold Upload.onError. destruct (Upload.headersSent _);
        eexists; split; reflexivity.
    - unfold Upload.onClose. destruct (negb _ && _);
        eexists; split; reflexivity. }
  destruct Hstep as (k1 & -> & Hr1).
  destruct (IH k1 c Hq) as [Hr Hc]. rewrite Hr, Hc.
  split; [exact Hr1 | reflexivity].
Qed.

Lemma quiet_silent (es : list Upload.event) :
  Trace.quiet es -> Trace.silent es.
Proof.
  unfold Trace.quiet, Trace.silent. intros Hq.
  eapply Forall_impl; [exact Hq|].
  intros [chunk| |w|]; cbn; congruence.
Qed.

(** Events other than ['end'] and ['error'] send no response and read no
    clock. *)
Lemma deliver_all_quiet (es : list Upload.event) :
  forall (k : Upload.Conn) (c : Clock),
    Trace.quiet es ->
    Upload.response (fst (Upload.deliver_all es (k, c))) = Upload.response k
    /\ snd (Upload.deliver_all es (k, c)) = c.
Proof.
  intros k c Hq. apply deliver_all_silent, quiet_silent. exact Hq.
Qed.

(** The first event of a trace on which a response can go out, if there
    is one. *)
Lemma first_sending (es : list Upload.event) :
  ~ Trace.silent es ->
  exists (pre : list Upload.event) (e : Upload.event)
         (post : list Upload.event),
    es = pre ++ e :: post /\ Trace.silent pre /\ Trace.sends e = true.
Proof.
  unfold Trace.silent. induction es as [|e es IH]; intros Hn.
  - exfalso. apply Hn. constructor.
  - destruct (Trace.sends e) eqn:He.
    + exists [], e, es. split; [reflexivity|]. split; [constructor | exact He].
    + destruct IH as (pre & e' & post & -> & Hq & He').
      { intros Hq. apply Hn. constructor; assumption. }
      exists (e :: pre), e', post. split; [reflexivity|].
      split; [constructor; assumption | exact He'].
Qed.

(** What the handler has answered after a trace, by the first event in
    it on which a response can go out. *)
Lemma response_after_trace (env : Upload.Closure) (c : Clock)
      (pre post : list Upload.event) (e : Upload.event) :
  Trace.silent pre ->
  Trace.sends e = true ->
  Upload.response
    (fst (Upload.deliver_all (pre ++ e :: post)
            (Upload.install env Upload.fresh, c)))
  = Some
      match e with
      | Upload.Error _ => res_error 500 "Upload stream failed"
      | _ =>
          res_json
            {| Upload.received :=
                 Upload.receivedBytes env + Trace.data_bytes pre;
               Upload.expected := Upload.sizeBytes env;
               Upload.duration :=
                 Qmake (readings c (reads c) - Upload.startTime env) 1000;
               Upload.timestamp := readings c (reads c) |}
      end.
Proof.
  intros Hq He.
  rewrite deliver_all_app.
  pose proof (deliver_all_silent pre (Upload.install env Upload.fresh) c Hq)
    as [Hr Hc].
  pose proof (deliver_all_listeners pre (Upload.install env Upload.fresh) c
                env eq_refl) as Hl.
  destruct (Upload.deliver_all pre (Upload.install env Upload.fresh, c))
    as [k1 c1]. cbn [fst snd] in Hr, Hc, Hl. subst c1.
  change (Upload.deliver_all (e :: post) (k1, c))
    with (Upload.deliver_all post (Upload.deliver e (k1, c))).
  apply deliver_all_response_kept.
  unfold Upload.deliver. rewrite Hl.
  destruct e as [chunk| |[]|]; try discriminate He.
  - unfold Upload.onEnd, Upload.headersSent, Date_now. rewrite Hr. reflexivity.
  - unfold Upload.onError, Upload.headersSent. cbn. rewrite Hr. reflexivity.
Qed.

(** X12: once an upload is accepted its listeners stay installed, and
    after any trace of request events [receivedBytes] is the sum of the
    lengths of all ['data'] chunks delivered, whether they came before or
    after an ['end'], an ['error'] or a ['close']. *)
Theorem upload_counts_every_data_chunk
        (req : Request) (cl : string) (E : Z) (c : Clock)
        (es : list Upload.event) :
  headers req !! "content-length" = Some cl ->
  parseInt cl = Num E ->
  0 < E ->
  Upload.listeners (fst (Upload.deliver_all es (Upload.upload req c)))
  = Some {| Upload.startTime := readings c (reads c);
            Upload.sizeBytes := Num E;
            Upload.receivedBytes := Trace.data_bytes es |}.
Proof.
  intros Hh Hp HE. rewrite (upload_accepts req cl E c Hh Hp HE).
  rewrite (deliver_all_listeners es
             (Upload.install {| Upload.startTime := readings c (reads c);
                                Upload.sizeBytes := Num E;
                                Upload.receivedBytes := 0 |} Upload.fresh)
             _ _ eq_refl).
  reflexivity.
Qed.

Lemma upload_counts_every_data_chunk_witness :
  Upload.listeners
    (fst (Upload.deliver_all Cases.broken_upload
            (Upload.upload (Scenario.post_upload "3") Scenario.steady_clock)))
  = Some {| Upload.startTime := 1700000000000;
            Upload.sizeBytes := Num 3;
            Upload.receivedBytes := 3 |}.
Proof.
  apply (upload_counts_every_data_chunk
           (Scenario.post_upload "3") "3" 3 Scenario.steady_clock
           Cases.broken_upload).
  - reflexivity.
  - reflexivity.
  - lia.
Defined.

(** X13: the handler answers an upload at most once: a response that has
    been sent is the response after every longer trace. *)
Theorem upload_answers_once
        (req : Request) (c : Clock) (es1 es2 : list Upload.event)
        (r : Response Upload.Report) :
  Upload.response (fst (Upload.deliver_all es1 (Upload.upload req c)))
    = Some r ->
  Upload.response
    (fst (Upload.deliver_all (es1 ++ es2) (Upload.upload req c))) = Some r.
Proof.
  intros Hr. rewrite deliver_all_app.
  apply deliver_all_response_kept. exact Hr.
Qed.

Lemma upload_answers_once_witness :
  Upload.response
    (fst (Upload.deliver_all
            (Cases.broken_upload ++ [Upload.End; Upload.Close])
            (Upload.upload (Scenario.post_upload "3") Scenario.steady_clock)))
  = Some (res_error 500 "Upload stream failed").
Proof.
  apply (upload_answers_once (Scenario.post_upload "3") Scenario.steady_clock
           Cases.broken_upload [Upload.End; Upload.Close]).
  reflexivity.
Defined.

(** X14: an accepted upload is answered on ['end'] or ['error'] only:
    while the request emits nothing but ['data'] and ['close'], no
    response is sent, however many bytes have arrived. *)
Theorem upload_silent_without_end_or_error
        (req : Request) (cl : string) (E : Z) (c : Clock)
        (es : list Upload.event) :
  headers req !! "content-length" = Some cl ->
  parseInt cl = Num E ->
  0 < E ->
  Trace.quiet es ->
  Upload.response (fst (Upload.deliver_all es (Upload.upload req c))) = None.
Proof.
  intros Hh Hp HE Hq. rewrite (upload_accepts req cl E c Hh Hp HE).
  destruct (deliver_all_quiet es
              (Upload.install {| Upload.startTime := readings c (reads c);
                                 Upload.sizeBytes := Num E;
                                 Upload.receivedBytes := 0 |} Upload.fresh)
              {| readings := readings c; reads := S (reads c) |} Hq)
    as [-> _].
  reflexivity.
Qed.

Lemma upload_silent_without_end_or_error_witness :
  Upload.response
    (fst (Upload.deliver_all Cases.aborted_upload
            (Upload.upload (Scenario.post_upload "3") Scenario.steady_clock)))
  = None.
Proof.
  apply (upload_silent_without_end_or_error
           (Scenario.post_upload "3") "3" 3 Scenario.steady_clock
           Cases.aborted_upload).
  - reflexivity.
  - reflexivity.
  - lia.
  - unfold Trace.quiet, Cases.aborted_upload.
    repeat constructor.
Defined.

(** X15: when the request emits ['error'] before its end and the
    response is still writable, the upload is answered 500 "Upload stream
    failed", and that stays the answer whatever the request emits
    afterwards, an ['end'] included.  When the response is already
    destroyed, as after a connection reset, the error is logged and no
    response is recorded. *)
Theorem upload_stream_error_answers_500
        (req : Request) (cl : string) (E : Z) (c : Clock)
        (pre post : list Upload.event) :
  headers req !! "content-length" = Some cl ->
  parseInt cl = Num E ->
  0 < E ->
  Trace.quiet pre ->
  Upload.response
    (fst (Upload.deliver_all (pre ++ Upload.Error true :: post)
            (Upload.upload req c)))
  = Some (res_error 500 "Upload stream failed")
  /\ Upload.response
       (fst (Upload.deliver_all (pre ++ [Upload.Error false])
               (Upload.upload req c)))
     = None
  /\ Upload.console
       (fst (Upload.deliver_all (pre ++ [Upload.Error false])
               (Upload.upload req c)))
     = "Upload stream error:"%string
         :: Upload.console
              (fst (Upload.deliver_all pre (Upload.upload req c))).
Proof.
  intros Hh Hp HE Hq. rewrite (upload_accepts req cl E c Hh Hp HE).
  split.
  { exact (response_after_trace _ _ pre post (Upload.Error true)
             (quiet_silent pre Hq) eq_refl). }
  rewrite deliver_all_app.
  set (k0 := Upload.install
               {| Upload.startTime := readings c (reads c);
                  Upload.sizeBytes := Num E;
                  Upload.receivedBytes := 0 |} Upload.fresh).
  set (c0 := {| readings := readings c; reads := S (reads c) |}).
  pose proof (deliver_all_quiet pre k0 c0 Hq) as [Hr _].
  pose proof (deliver_all_listeners pre k0 c0 _ eq_refl) as Hl.
  destruct (Upload.deliver_all pre (k0, c0)) as [k1 c1].
  cbn [fst] in Hr, Hl |- *.
  unfold Upload.deliver_all. cbn [fold_left].
  unfold Upload.deliver. rewrite Hl. cbn [fst].
  unfold Upload.onError, Upload.headersSent. cbn. rewrite Hr. cbn.
  split; [exact Hr | reflexivity].
Qed.

Lemma upload_stream_error_answers_500_witness :
  Upload.response
    (fst (Upload.deliver_all
            ([Upload.Data [Byte.x00]] ++ Upload.Error true :: [Upload.End])
            (Upload.upload (Scenario.post_upload "3") Scenario.steady_clock)))
  = Some (res_error 500 "Upload stream failed")
  /\ Upload.response
       (fst (Upload.deliver_all
               ([Upload.Data [Byte.x00]] ++ [Upload.Error false])
               (Upload.upload (Scenario.post_upload "3")
                  Scenario.steady_clock)))
     = None.
Proof.
  destruct (upload_stream_error_answers_500
              (Scenario.post_upload "3") "3" 3 Scenario.steady_clock
              [Upload.Data [Byte.x00]] [Upload.End])
    as (Hlive & Hdead & _).
  - reflexivity.
  - reflexivity.
  - lia.
  - unfold Trace.quiet. repeat constructor.
  - split; [exact Hlive | exact Hdead].
Defined.

(** X16: the report of an upload is fixed by the first ['end']: it
    counts the bytes delivered before that event, ['close'] events in
    between change nothing, and neither late data nor a later ['error']
    or second ['end'] changes what was reported. *)
Theorem upload_report_is_fixed_at_end
        (req : Request) (cl : string) (E : Z) (c : Clock)
        (pre post : list Upload.event) :
  headers req !! "content-length" = Some cl ->
  parseInt cl = Num E ->
  0 < E ->
  Trace.quiet pre ->
  Upload.response
    (fst (Upload.deliver_all (pre ++ Upload.End :: post)
            (Upload.upload req c)))
  = Some (res_json
            {| Upload.received := Trace.data_bytes pre;
               Upload.expected := Num E;
               Upload.duration :=
                 Qmake (readings c (S (reads c)) - readings c (reads c)) 1000;
               Upload.timestamp := readings c (S (reads c)) |}).
Proof.
  intros Hh Hp HE Hq. rewrite (upload_accepts req cl E c Hh Hp HE).
  exact (response_after_trace _ _ pre post Upload.End
           (quiet_silent pre Hq) eq_refl).
Qed.

Lemma upload_report_is_fixed_at_end_witness :
  Upload.response
    (fst (Upload.deliver_all
            ([Upload.Data [Byte.x00]; Upload.Close]
             ++ Upload.End :: [Upload.Data [Byte.x01]; Upload.Error true])
            (Upload.upload (Scenario.post_upload "3") Scenario.steady_clock)))
  = Some (res_json
            {| Upload.received := 1;
               Upload.expected := Num 3;
               Upload.duration := Qmake 7 1000;
               Upload.timestamp := 1700000000007 |}).
Proof.
  apply (upload_report_is_fixed_at_end
           (Scenario.post_upload "3") "3" 3 Scenario.steady_clock
           [Upload.Data [Byte.x00]; Upload.Close]
           [Upload.Data [Byte.x01]; Upload.Error true]).
  - reflexivity.
  - reflexivity.
  - lia.
  - unfold Trace.quiet. repeat constructor.
Defined.

Lemma data_bytes_of_chunks (chunks : list (list Byte.byte)) :
  Trace.data_bytes (map Upload.Data chunks) = Upload.body_length chunks
  /\ Trace.quiet (map Upload.Data chunks).
Proof.
  unfold Trace.quiet. induction chunks as [|chunk chunks [IH Hq]]; cbn.
  - split; [reflexivity | constructor].
  - split; [fold (Upload.body_length chunks); lia|].
    constructor; [reflexivity | exact Hq].
Qed.

(** X17: a ['close'] of the request never sends a response, and it logs
    the client's disconnect exactly when no response has gone out before
    it (no ['end'], no ['error'] on a writable response) and not one byte
    of data has arrived.  After a connection reset, whose ['error'] finds
    the response destroyed, the disconnect is logged as well. *)
Theorem upload_disconnect_logged_only_before_anything
        (req : Request) (cl : string) (E : Z) (c : Clock)
        (es : list Upload.event) :
  headers req !! "content-length" = Some cl ->
  parseInt cl = Num E ->
  0 < E ->
  let before := Upload.deliver_all es (Upload.upload req c) in
  let after := Upload.deliver Upload.Close before in
  Upload.response (fst after) = Upload.response (fst before)
  /\ (Trace.silent es /\ Trace.data_bytes es = 0 ->
      Upload.console (fst after)
      = "Client disconnected during upload"%string
          :: Upload.console (fst before))
  /\ (~ (Trace.silent es /\ Trace.data_bytes es = 0) ->
      Upload.console (fst after) = Upload.console (fst before)).
Proof.
  intros Hh Hp HE. cbv zeta.
  pose proof (upload_accepts req cl E c Hh Hp HE) as Hup.
  assert (Hl : Upload.listeners
                 (fst (Upload.deliver_all es (Upload.upload req c)))
               = Some {| Upload.startTime := readings c (reads c);
                         Upload.sizeBytes := Num E;
                         Upload.receivedBytes := Trace.data_bytes es |}).
  { rewrite Hup.
    rewrite (deliver_all_listeners es
               (Upload.install {| Upload.startTime := readings c (reads c);
                                  Upload.sizeBytes := Num E;
                                  Upload.receivedBytes := 0 |} Upload.fresh)
               _ _ eq_refl).
    reflexivity. }
  assert (Hquiet : Trace.silent es ->
                   Upload.response
                     (fst (Upload.deliver_all es (Upload.upload req c)))
                   = None).
  { intros Hq. rewrite Hup.
    destruct (deliver_all_silent es
                (Upload.install {| Upload.startTime := readings c (reads c);
                                   Upload.sizeBytes := Num E;
                                   Upload.receivedBytes := 0 |} Upload.fresh)
                {| readings := readings c; reads := S (reads c) |} Hq)
      as [-> _].
    reflexivity. }
  assert (Hloud : ~ Trace.silent es ->
                  Upload.response
                    (fst (Upload.deliver_all es (Upload.upload req c)))
                  <> None).
  { intros Hn. destruct (first_sending es Hn)
      as (pre & e & post & -> & Hq & He).
    rewrite Hup.
    rewrite (response_after_trace _ _ pre post e Hq He). discriminate. }
  destruct (Upload.deliver_all es (Upload.upload req c)) as [k c1].
  cbn [fst] in *.
  unfold Upload.deliver. rewrite Hl. cbn [fst].
  unfold Upload.onClose, Upload.headersSent.
  cbn [Upload.receivedBytes].
  destruct (Upload.response k) as [r|] eqn:Hr; cbn [negb andb].
  - split; [exact Hr|]. split; [|reflexivity].
    intros [Hq _]. discriminate (Hquiet Hq).
  - destruct (Z.eqb_spec (Trace.data_bytes es) 0) as [Hz|Hz]; cbn.
    + split; [exact Hr|]. split; [reflexivity|].
      intros Habs. exfalso. apply Habs. split; [|exact Hz].
      destruct (decide (Forall (fun e => Trace.sends e = false) es))
        as [Hq|Hn]; [exact Hq|].
      exfalso. apply (Hloud Hn). reflexivity.
    + split; [exact Hr|]. split; [|reflexivity].
      intros [_ Habs]. contradiction.
Qed.

Lemma upload_disconnect_logged_only_before_anything_witness :
  Upload.console
    (fst (Upload.deliver_all Cases.reset_upload
            (Upload.upload (Scenario.post_upload "3")
               Scenario.steady_clock)))
  = ["Client disconnected during upload"%string;
     "Upload stream error:"%string].
Proof.
  destruct (upload_disconnect_logged_only_before_anything
              (Scenario.post_upload "3") "3" 3 Scenario.steady_clock
              [Upload.Error false])
    as (_ & Hlog & _).
  - reflexivity.
  - reflexivity.
  - lia.
  - apply Hlog. split; [repeat constructor | reflexivity].
Defined.

(** X18: a body of at least one byte uploaded with the decimal string of
    its length as Content-Length is reported with [received] and
    [expected] both equal to that length. *)
Theorem upload_of_declared_body
        (req : Request) (chunks : list (list Byte.byte)) (c : Clock) :
  0 < Upload.body_length chunks ->
  headers req !! "content-length"
    = Some (Headers.toString (Num (Upload.body_length chunks))) ->
  exists r : Upload.Report,
    Upload.response (fst (Upload.exchange req chunks c)) = Some (res_json r)
    /\ Upload.received r = Upload.body_length chunks
    /\ Upload.expected r = Num (Upload.body_length chunks).
Proof.
  intros Hlen Hh. unfold Upload.exchange.
  rewrite (upload_accepts req _ _ c Hh (parseInt_toString _) Hlen).
  destruct (data_bytes_of_chunks chunks) as [Hbytes Hq].
  change [Upload.End] with (Upload.End :: []).
  rewrite (response_after_trace _ _ _ [] Upload.End
             (quiet_silent _ Hq) eq_refl).
  eexists. split; [reflexivity|]. cbn. split; [exact Hbytes | reflexivity].
Qed.

Lemma upload_of_declared_body_witness :
  exists r : Upload.Report,
    Upload.response
      (fst (Upload.exchange (Scenario.post_upload "3") Scenario.three_bytes
              Scenario.steady_clock)) = Some (res_json r)
    /\ Upload.received r = 3
    /\ Upload.expected r = Num 3.
Proof.
  apply (upload_of_declared_body (Scenario.post_upload "3")
           Scenario.three_bytes Scenario.steady_clock).
  - cbn. lia.
  - reflexivity.
Defined.
